(** * pyfitterbap.pubsub: the hierarchical publish/subscribe engine

    A shallow embedding of [src/pyfitterbap/pubsub.py] ([_as_bool], [_Topic],
    [PubSub]) and of the two relay functions of [Device] in
    [src/pyfitterbap/comm/ui/main.py], followed by the properties of the
    engine.

    Conventions of the embedding.
    - Python values are the inductive [pyval]; [py_eq] is Python's [==],
      [truthy] is [bool(x)], [callable] is [callable(x)].
    - A [_Topic] object is a node of a rose tree.  The [children] dict is an
      association list in insertion order (the order [dict.values()] iterates
      in).  The weak [parent] reference is not stored: a node is only ever
      created by [_topic_find], as a child of the node that becomes its
      parent, and [parent] is never reassigned, so the parent chain of the
      node reached from the root by the parts [h] is the chain of nodes
      reached by the prefixes of [h].  A reference to a node is therefore
      the list of parts [h] leading to it (a [handle]).
    - Calling a subscriber is an effect on the outside world.  It is
      recorded as a [call] that keeps the callable, the positional arguments
      and the tree as it stands at the moment of the call (what the
      subscriber would read if it called [get] from inside the callback).
      What a subscriber does when it is called is outside the model, but
      for the two relay functions of the bridge.
    - A method of the engine is a function from the tree before the call to
      a [run]: the outcome (a result or the exception raised), the tree
      after the call and the calls made, in order. *)

From Stdlib Require Import String Ascii List Bool ZArith Lia PeanoNat.
Import ListNotations.
Open Scope string_scope.
Open Scope list_scope.

(** ** Python strings *)

Module PyStr.

(** [s[-1]], [None] on the empty string (Python raises IndexError). *)
Fixpoint last_char (s : string) : option ascii :=
  match s with
  | EmptyString => None
  | String c EmptyString => Some c
  | String _ r => last_char r
  end.

(** [s[-1] == c], on a string known not to be empty. *)
Definition last_is (s : string) (c : ascii) : bool :=
  match last_char s with
  | Some c' => (c' =? c)%char
  | None => false
  end.

(** [s[:-1]]. *)
Fixpoint drop_last (s : string) : string :=
  match s with
  | EmptyString => EmptyString
  | String _ EmptyString => EmptyString
  | String c r => String c (drop_last r)
  end.

(** [s.startswith(p)]. *)
Definition startswith (s p : string) : bool := String.prefix p s.

(** [s.endswith(suf)]: some suffix of [s] is [suf]. *)
Fixpoint endswith (s suf : string) : bool :=
  (s =? suf) ||
  match s with
  | EmptyString => false
  | String _ r => endswith r suf
  end.

(** [c in '/$?'] for a one character string [c]. *)
Definition in_strip_set (c : ascii) : bool :=
  (c =? "/")%char || (c =? "$")%char || (c =? "?")%char.

(** The loop [while len(topic) and topic[-1] in '/$?': topic = topic[:-1]];
    every turn shortens the topic, so [length topic] turns are enough. *)
Fixpoint strip_loop (fuel : nat) (topic : string) : string :=
  match fuel with
  | O => topic
  | S fuel' =>
      match last_char topic with
      | Some c =>
          if in_strip_set c then strip_loop fuel' (drop_last topic)
          else topic
      | None => topic
      end
  end.

Definition strip (topic : string) : string :=
  strip_loop (String.length topic) topic.

(** [s.split('/')], accumulating the current part in [cur]. *)
Fixpoint split_from (cur : string) (s : string) : list string :=
  match s with
  | EmptyString => [cur]
  | String c r =>
      if (c =? "/")%char then cur :: split_from EmptyString r
      else split_from (cur ++ String c EmptyString)%string r
  end.

Definition split (s : string) : list string := split_from EmptyString s.

(** ['/'.join(parts)]. *)
Fixpoint join (parts : list string) : string :=
  match parts with
  | [] => EmptyString
  | [p] => p
  | p :: rest => (p ++ "/" ++ join rest)%string
  end.

(** [c.lower()] on an ASCII character. *)
Definition lower_char (c : ascii) : ascii :=
  let n := nat_of_ascii c in
  if (65 <=? n)%nat && (n <=? 90)%nat then ascii_of_nat (n + 32) else c.

(** [s.lower()] on an ASCII string. *)
Fixpoint lower (s : string) : string :=
  match s with
  | EmptyString => EmptyString
  | String c r => String (lower_char c) (lower r)
  end.

End PyStr.

(** ** Python values *)

#[local] Set Warnings "-register-all".

Inductive pyval : Type :=
| VNone
| VBool (b : bool)
| VInt (z : Z)
| VStr (s : string)
| VFn (id : nat)                       (* a function or bound method *)
| VTuple (items : list pyval)
| VDict (entries : list (string * pyval)).

(** [d.get(k)] on the entries of a dict with string keys. *)
Fixpoint dict_get {A : Type} (d : list (string * A)) (k : string) : option A :=
  match d with
  | [] => None
  | (k', v) :: rest => if (k' =? k) then Some v else dict_get rest k
  end.

(** [k in d]. *)
Definition dict_has {A : Type} (d : list (string * A)) (k : string) : bool :=
  match dict_get d k with Some _ => true | None => false end.

(** Python's [a == b].  [bool] is a subclass of [int] ([True == 1]); a
    function equals only itself; tuples compare item by item; dicts compare
    as sets of bindings; values of unrelated types are unequal. *)
Fixpoint py_eq (a b : pyval) : bool :=
  match a, b with
  | VNone, VNone => true
  | VBool x, VBool y => Bool.eqb x y
  | VBool x, VInt y => (Z.b2z x =? y)%Z
  | VInt x, VBool y => (x =? Z.b2z y)%Z
  | VInt x, VInt y => (x =? y)%Z
  | VStr x, VStr y => (x =? y)
  | VFn x, VFn y => (x =? y)%nat
  | VTuple xs, VTuple ys =>
      (fix items (l1 l2 : list pyval) {struct l1} : bool :=
         match l1, l2 with
         | [], [] => true
         | x :: l1', y :: l2' => py_eq x y && items l1' l2'
         | _, _ => false
         end) xs ys
  | VDict xs, VDict ys =>
      forallb (fun kv : string * pyval =>
                 let (k, v) := kv in
                 existsb (fun kw : string * pyval =>
                            let (k', w) := kw in (k =? k') && py_eq v w) ys) xs
      &&
      forallb (fun kw : string * pyval =>
                 let (k', w) := kw in
                 existsb (fun kv : string * pyval =>
                            let (k, v) := kv in (k =? k') && py_eq v w) xs) ys
  | _, _ => false
  end.

(** [x is None]. *)
Definition is_None (x : pyval) : bool :=
  match x with VNone => true | _ => false end.

(** [bool(x)]. *)
Definition truthy (x : pyval) : bool :=
  match x with
  | VNone => false
  | VBool b => b
  | VInt z => negb (z =? 0)%Z
  | VStr s => negb (s =? "")
  | VFn _ => true
  | VTuple l => match l with [] => false | _ => true end
  | VDict d => match d with [] => false | _ => true end
  end.

(** [callable(x)]. *)
Definition callable (x : pyval) : bool :=
  match x with VFn _ => true | _ => false end.

(** [x in l] for a list [l]: some item equals [x]. *)
Definition py_in (x : pyval) (l : list pyval) : bool :=
  existsb (fun e => py_eq e x) l.

(** ** Exceptions and outcomes *)

Inductive exn : Type := ValueError | KeyError | IndexError | TypeError.

Inductive outcome (A : Type) : Type :=
| Ok (a : A)
| Raise (e : exn).
Arguments Ok {A} a.
Arguments Raise {A} e.

(** [_as_bool(x)] *)
Definition _as_bool (x : pyval) : outcome bool :=
  let x := match x with VStr s => VStr (PyStr.lower s) | _ => x end in
  if py_in x [VInt 0; VStr "no"; VStr "off"; VStr "disable"; VStr "disabled";
              VStr "false"; VStr "inactive"] then Ok false
  else if py_in x [VInt 1; VStr "yes"; VStr "on"; VStr "enable"; VStr "enabled";
                   VStr "true"; VStr "active"] then Ok true
  else Raise ValueError.

(** ** The topic tree *)

(** A [_Topic] object.  [_subscribers] is the list of the tuples
    [(callback, forward)]. *)
Inductive Topic : Type :=
  mkTopic {
    _topic : string;
    _value : pyval;
    meta : pyval;
    children : list (string * Topic);
    _subscribers : list (pyval * pyval)
  }.

(** [_Topic(parent, topic)] *)
Definition Topic_init (topic : string) : Topic :=
  mkTopic topic VNone VNone [] [].

Definition set_value (x : pyval) (t : Topic) : Topic :=
  mkTopic (_topic t) x (meta t) (children t) (_subscribers t).

Definition set_meta (x : pyval) (t : Topic) : Topic :=
  mkTopic (_topic t) (_value t) x (children t) (_subscribers t).

Definition set_children (ch : list (string * Topic)) (t : Topic) : Topic :=
  mkTopic (_topic t) (_value t) (meta t) ch (_subscribers t).

Definition set_subscribers (l : list (pyval * pyval)) (t : Topic) : Topic :=
  mkTopic (_topic t) (_value t) (meta t) (children t) l.

(** [d[k] = v]: an existing key keeps its place, a new key goes last. *)
Fixpoint dict_set {A : Type} (d : list (string * A)) (k : string) (v : A)
  : list (string * A) :=
  match d with
  | [] => [(k, v)]
  | (k', v') :: rest =>
      if (k' =? k) then (k, v) :: rest else (k', v') :: dict_set rest k v
  end.

(** A reference to a node: the parts leading to it from the root. *)
Definition handle : Type := list string.

(** The node a handle refers to. *)
Fixpoint node_at (t : Topic) (h : handle) : option Topic :=
  match h with
  | [] => Some t
  | part :: rest =>
      match dict_get (children t) part with
      | Some child => node_at child rest
      | None => None
      end
  end.

(** Mutation of the node a handle refers to. *)
Fixpoint update_at (f : Topic -> Topic) (h : handle) (t : Topic) : Topic :=
  match h with
  | [] => f t
  | part :: rest =>
      match dict_get (children t) part with
      | Some child =>
          set_children (dict_set (children t) part (update_at f rest child)) t
      | None => t
      end
  end.

(** The nodes met from the root down to the node of a handle. *)
Fixpoint path_nodes (t : Topic) (h : handle) : list Topic :=
  t :: match h with
       | [] => []
       | part :: rest =>
           match dict_get (children t) part with
           | Some child => path_nodes child rest
           | None => []
           end
       end.

(** The node of a handle followed by its parent chain, root last: the
    nodes visited by [topic = topic.parent()] until [None]. *)
Definition chain (root : Topic) (h : handle) : list Topic :=
  rev (path_nodes root h).

(** ** Calls, runs and the monad of the methods *)

(** One call of [c_cbk] on the positional arguments [c_args], made while
    the tree is [c_seen]. *)
Record call : Type :=
  mkCall { c_cbk : pyval; c_args : list pyval; c_seen : Topic }.

Record run (A : Type) : Type :=
  mkRun { out : outcome A; tree : Topic; calls : list call }.
Arguments mkRun {A} out tree calls.
Arguments out {A} r.
Arguments tree {A} r.
Arguments calls {A} r.

Definition M (A : Type) : Type := Topic -> run A.

Definition ret {A : Type} (a : A) : M A := fun root => mkRun (Ok a) root [].

Definition raise {A : Type} (e : exn) : M A :=
  fun root => mkRun (Raise e) root [].

Definition bind {A B : Type} (m : M A) (f : A -> M B) : M B :=
  fun root =>
    let r := m root in
    match out r with
    | Ok a =>
        let r' := f a (tree r) in
        mkRun (out r') (tree r') (calls r ++ calls r')
    | Raise e => mkRun (Raise e) (tree r) (calls r)
    end.

Declare Scope py_scope.
Delimit Scope py_scope with py.
Notation "'let*' x ':=' m 'in' k" := (bind m (fun x => k))
  (at level 10, x name, m at level 100, k at level 200) : py_scope.
Notation "m ';;' k" := (bind m (fun _ => k))
  (at level 100, k at level 200, right associativity) : py_scope.
Open Scope py_scope.

(** Read the tree. *)
Definition read {A : Type} (f : Topic -> A) : M A :=
  fun root => mkRun (Ok (f root)) root [].

(** Mutate the tree. *)
Definition write (f : Topic -> Topic) : M unit :=
  fun root => mkRun (Ok tt) (f root) [].

(** Make the calls [cs root], in order. *)
Definition invoke (cs : Topic -> list call) : M unit :=
  fun root => mkRun (Ok tt) root (cs root).

(** ** class _Topic *)

Module _Topic.

(** The notification walk of [publish]: at the node [h] and then at every
    ancestor, every subscriber but [src_cbk] is called with the topic of
    the publishing node. *)
Definition notify (name : string) (x retain src_cbk : pyval)
           (visited : list Topic) (seen : Topic) : list call :=
  flat_map
    (fun topic =>
       flat_map
         (fun entry : pyval * pyval =>
            let (subscriber, forward) := entry in
            if py_eq subscriber src_cbk then []
            else [mkCall subscriber [VStr name; x; retain] seen])
         (_subscribers topic))
    visited.

(** [self.publish(x, retain, src_cbk)] on the node [h]. *)
Definition publish (h : handle) (x retain src_cbk : pyval) : M unit :=
  fun root =>
    match node_at root h with
    | None => ret tt root
    | Some self =>
        let walk :=
          invoke (fun seen => notify (_topic self) x retain src_cbk
                                     (chain seen h) seen) in
        if truthy retain then
          if py_eq (_value self) x then ret tt root
          else (write (update_at (set_value x) h) ;; walk) root
        else (write (update_at (set_value VNone) h) ;; walk) root
    end.

(** The calls of [forward]: the forward-flagged subscribers of the visited
    nodes, but [src_cbk]. *)
Definition forward_calls (topic : string) (value retain src_cbk : pyval)
           (visited : list Topic) (seen : Topic) : list call :=
  flat_map
    (fun node =>
       flat_map
         (fun entry : pyval * pyval =>
            let (subscriber, forward) := entry in
            if py_eq subscriber src_cbk || negb (truthy forward) then []
            else [mkCall subscriber [VStr topic; value; retain] seen])
         (_subscribers node))
    visited.

(** [self.forward(topic, value, retain, src_cbk, traverse_parent)] on the
    node [h]: the recursion on [self.parent()] visits [chain root h]. *)
Definition forward (h : handle) (topic : string)
           (value retain src_cbk : pyval) (traverse_parent : bool)
  : M unit :=
  invoke (fun seen =>
            forward_calls topic value retain src_cbk
              (if traverse_parent then chain seen h
               else match node_at seen h with
                    | Some self => [self]
                    | None => []
                    end) seen).

(** [self._publish_new_subscriber(cbk)]: children first, then the node;
    the callback gets two arguments. *)
Fixpoint _publish_new_subscriber (self : Topic) (cbk : pyval) (seen : Topic)
  : list call :=
  flat_map (fun kc : string * Topic =>
              let (_, child) := kc in _publish_new_subscriber child cbk seen)
           (children self)
  ++ (if is_None (_value self) then []
      else [mkCall cbk [VStr (_topic self); _value self] seen]).

(** The items of [self._subscribers] as Python sees them: tuples. *)
Definition subscriber_items (self : Topic) : list pyval :=
  map (fun entry : pyval * pyval =>
         let (cbk, forward) := entry in VTuple [cbk; forward])
      (_subscribers self).

(** [self.subscribe(cbk, skip_retained, forward)] on the node [h]. *)
Definition subscribe (h : handle) (cbk skip_retained forward : pyval)
  : M unit :=
  if negb (callable cbk) then raise ValueError
  else
    (let* self := read (fun root => node_at root h) in
     match self with
     | None => ret tt
     | Some self =>
         (if negb (py_in cbk (subscriber_items self)) then
            write (update_at
                     (fun t => set_subscribers
                                 (_subscribers t ++ [(cbk, forward)]) t) h)
          else ret tt) ;;
         if negb (truthy skip_retained) then
           invoke (fun seen =>
                     match node_at seen h with
                     | Some self => _publish_new_subscriber self cbk seen
                     | None => []
                     end)
         else ret tt
     end).

(** [l.pop(idx)] (the popped item is dropped). *)
Definition pop {A : Type} (idx : nat) (l : list A) : list A :=
  firstn idx l ++ skipn (S idx) l.

(** The indexes [unsub] collected by the first loop of [unsubscribe]. *)
Fixpoint unsub_indexes (cbk : pyval) (idx : nat) (l : list (pyval * pyval))
  : list nat :=
  match l with
  | [] => []
  | (cbk_fn, _) :: rest =>
      if py_eq cbk cbk_fn then idx :: unsub_indexes cbk (S idx) rest
      else unsub_indexes cbk (S idx) rest
  end.

(** [self.unsubscribe(cbk)] on the node [h]. *)
Definition unsubscribe (h : handle) (cbk : pyval) : M unit :=
  write (update_at
           (fun t =>
              let unsub := unsub_indexes cbk 0 (_subscribers t) in
              set_subscribers
                (fold_left (fun l idx => pop idx l) (rev unsub)
                           (_subscribers t)) t) h).

End _Topic.

(** ** class PubSub *)

(** A [PubSub] object: [_topic_prefix] never changes after [__init__], the
    tree under [_root] is what the methods mutate. *)
Record PubSub : Type :=
  mkPubSub { _topic_prefix : string; _root : Topic }.

Module PubSub.

(** [PubSub(topic_prefix)]; [None] stands for [topic_prefix=None]. *)
Definition __init__ (topic_prefix : option string) : PubSub :=
  mkPubSub (match topic_prefix with None => "" | Some s => s end)
           (Topic_init "").

(** The parts visited by the loop of [_topic_find]: none when the
    stripped topic is empty. *)
Definition parts_of (topic : string) : list string :=
  let topic := PyStr.strip topic in
  if (String.length topic =? 0)%nat then [] else PyStr.split topic.

(** The loop [for part in parts] of [_topic_find], from the node [t];
    the result is [t] after the loop, [None] when the loop returned
    [None]. *)
Fixpoint find_walk (create : bool) (t : Topic)
         (parts_so_far parts : list string) : option Topic :=
  match parts with
  | [] => Some t
  | part :: rest =>
      let parts_so_far := parts_so_far ++ [part] in
      match dict_get (children t) part with
      | Some child =>
          match find_walk create child parts_so_far rest with
          | Some child' =>
              Some (set_children (dict_set (children t) part child') t)
          | None => None
          end
      | None =>
          if create then
            let subtopic := PyStr.join parts_so_far in
            let child := Topic_init subtopic in
            match find_walk create child parts_so_far rest with
            | Some child' =>
                Some (set_children (dict_set (children t) part child') t)
            | None => None
            end
          else None
      end
  end.

(** [self._topic_find(topic, create)] *)
Definition _topic_find (topic : string) (create : bool)
  : M (option handle) :=
  fun root =>
    let parts := parts_of topic in
    match find_walk create root [] parts with
    | Some root' => mkRun (Ok (Some parts)) root' []
    | None => mkRun (Ok None) root []
    end.

(** The loop of [_topic_find_existing_base]: the parts of the deepest
    existing node. *)
Fixpoint base_walk (t : Topic) (parts : list string) : handle :=
  match parts with
  | [] => []
  | part :: rest =>
      match dict_get (children t) part with
      | Some child => part :: base_walk child rest
      | None => []
      end
  end.

(** [self._topic_find_existing_base(topic)] *)
Definition _topic_find_existing_base (topic : string) : M handle :=
  read (fun root => base_walk root (parts_of topic)).

(** The recursion of [_meta_send_all] below the node [topic], whose
    parent chain is [parents] (nearest first). *)
Fixpoint meta_walk (parents : list Topic) (topic : Topic)
         (src_cbk : pyval) (seen : Topic) : list call :=
  (if negb (is_None (meta topic)) then
     _Topic.forward_calls (_topic topic ++ "$")%string (meta topic) (VBool false)
                          src_cbk (topic :: parents) seen
   else [])
  ++ flat_map (fun kc : string * Topic =>
                 let (_, child) := kc in
                 meta_walk (topic :: parents) child src_cbk seen)
              (children topic).

(** [self._meta_send_all(topic, src_cbk)] *)
Definition _meta_send_all (topic : option handle) (src_cbk : pyval)
  : M unit :=
  match topic with
  | None => ret tt
  | Some h =>
      invoke (fun seen =>
                match chain seen h with
                | node :: parents => meta_walk parents node src_cbk seen
                | [] => []
                end)
  end.

(** A method call on the result of [_topic_find(..., create=True)], which
    is never [None]. *)
Definition on_node {A : Type} (t : option handle) (k : handle -> M A)
           (none : M A) : M A :=
  match t with Some h => k h | None => none end.

(** [self.publish(topic, value, retain, src_cbk)] *)
Definition publish (self_topic_prefix : string) (topic : string)
           (value retain src_cbk : pyval) : M unit :=
  if (String.length topic =? 0)%nat then raise ValueError
  else if (topic =? "$") then
    let* t := _topic_find self_topic_prefix true in
    _meta_send_all t src_cbk ;;
    _Topic.forward [] topic VNone retain src_cbk false
  else if PyStr.endswith topic "/$" then
    if PyStr.startswith topic self_topic_prefix then
      let* t := _topic_find topic true in
      _meta_send_all t src_cbk
    else
      let* t := _topic_find_existing_base topic in
      _Topic.forward t topic VNone retain src_cbk true
  else if PyStr.last_is topic "$" then
    let* t := _topic_find (PyStr.drop_last topic) true in
    on_node t (fun t =>
      if PyStr.startswith topic self_topic_prefix then
        if is_None value then
          let* t_value := read (fun root =>
                                  match node_at root t with
                                  | Some node => _value node
                                  | None => VNone
                                  end) in
          if negb (is_None t_value) then
            _Topic.forward t topic t_value (VBool true) src_cbk true
          else ret tt
        else
          write (update_at (set_meta value) t) ;;
          _Topic.forward t topic value (VBool true) src_cbk true
      else
        _Topic.forward t topic value (VBool true) src_cbk true)
      (ret tt)
  else if PyStr.last_is topic "?" then ret tt
  else
    let* t := _topic_find topic true in
    on_node t (fun t => _Topic.publish t value retain src_cbk) (ret tt).

(** [self.meta(topic, meta)] *)
Definition meta (self_topic_prefix : string) (topic : string) (meta : pyval)
  : M unit :=
  match PyStr.last_char topic with
  | None => raise IndexError
  | Some c =>
      let topic := if negb (c =? "$")%char then (topic ++ "$")%string else topic in
      publish self_topic_prefix topic meta VNone VNone
  end.

(** [self.get(topic)] *)
Definition get (topic : string) : M pyval :=
  let* t := _topic_find topic false in
  match t with
  | None => raise KeyError
  | Some t =>
      read (fun root =>
              match node_at root t with
              | Some node => _value node
              | None => VNone
              end)
  end.

(** [self.subscribe(topic, cbk, skip_retained, forward)] *)
Definition subscribe (topic : string) (cbk skip_retained forward : pyval)
  : M unit :=
  let* t := _topic_find topic true in
  on_node t (fun t => _Topic.subscribe t cbk skip_retained forward) (ret tt).

(** [self.unsubscribe(topic, cbk)] *)
Definition unsubscribe (topic : string) (cbk : pyval) : M unit :=
  let* t := _topic_find topic true in
  on_node t (fun t => _Topic.unsubscribe t cbk) (ret tt).

(** [self.create(topic, meta, subscriber_cbk, skip_retained, forward)];
    [meta] is a metadata dict or [None]. *)
Definition create (topic : string) (meta : option (list (string * pyval)))
           (subscriber_cbk skip_retained forward : pyval) : M unit :=
  let* t := _topic_find topic false in
  match t with
  | Some _ => raise ValueError
  | None =>
      let* t := _topic_find topic true in
      on_node t (fun t =>
        write (update_at
                 (set_meta (match meta with
                            | Some d => VDict d
                            | None => VNone
                            end)) t) ;;
        (match meta with
         | Some d =>
             if dict_has d "default" then
               match _as_bool (match dict_get d "retain" with
                               | Some r => r
                               | None => VInt 0
                               end) with
               | Ok retain =>
                   match dict_get d "default" with
                   | Some x => _Topic.publish t x (VBool retain) subscriber_cbk
                   | None => ret tt
                   end
               | Raise e => raise e
               end
             else ret tt
         | None => ret tt
         end) ;;
        if negb (is_None subscriber_cbk) then
          _Topic.subscribe t subscriber_cbk skip_retained forward
        else ret tt)
        (ret tt)
  end.

End PubSub.

(** ** Who is subscribed *)


(** ** class Device: the bridge of two engines *)

Module Device.

(** Modelled from the spec: the inner Engine of the bridge.  In the
    repository the inner side of a [Device] is the native [Comm] endpoint,
    which calls [_on_device_publish] (the wrapper that [Resync.wrap] makes
    around [_subscribe_device]) and whose code is not part of the Python
    sources.  Following the Bridge Adapter of the specification, which
    wraps two Engines and relays synchronously, [comm] is taken to be a
    second [PubSub], and a call of [_on_device_publish] runs
    [_subscribe_device] at once.  The two relay functions themselves are
    those of [Device] in [comm/ui/main.py]. *)
Record Device : Type :=
  mkDevice {
    _topic_prefix : string;          (* [dev + '/'] *)
    pubsub_prefix : string;          (* [self._pubsub._topic_prefix] *)
    comm_prefix : string;            (* [self.comm._topic_prefix] *)
    _subscribe_parent : pyval;       (* the bound method, as a callable *)
    _on_device_publish : pyval       (* the wrapped [_subscribe_device] *)
  }.

(** The trees of the two engines: [self._pubsub] (outer) and [self.comm]
    (inner). *)
Record world : Type := mkWorld { _pubsub : Topic; comm : Topic }.

(** What the outside of the engines sees, in order. *)
Inductive effect : Type :=
| ToParent (topic : string) (value retain : pyval)  (* [_pubsub.publish] *)
| ToDevice (topic : string) (value retain : pyval)  (* [comm.publish] *)
| Notified (c : call).        (* a call of another subscriber *)

(** [topic[n:]] *)
Fixpoint skip (n : nat) (topic : string) : string :=
  match n, topic with
  | S n', String _ r => skip n' r
  | _, _ => topic
  end.

(** The arguments [(topic, value, retain)] a relay function is called
    with; [retain] defaults to [None]. *)
Definition relay_args (c : call) : option (string * pyval * pyval) :=
  match c_args c with
  | [VStr topic; value] => Some (topic, value, VNone)
  | [VStr topic; value; retain] => Some (topic, value, retain)
  | _ => None
  end.

Definition result : Type := outcome unit * world * list effect.

(** One call [c] of a subscriber.  A relay function publishes on the other
    engine; the calls of that publish are run by [nested] before the
    relay function returns (synchronous, depth-first).  Any other
    subscriber is outside the engines. *)
Definition relay_call (self : Device)
           (nested : list call -> world -> option result)
           (c : call) (w : world) : option result :=
  let relayed (to_parent : bool) (topic : string) (value retain : pyval) :=
    let p :=
      if to_parent then
        PubSub.publish (pubsub_prefix self) topic value retain
                       (_subscribe_parent self) (_pubsub w)
      else
        PubSub.publish (comm_prefix self) topic value retain
                       (_on_device_publish self) (comm w) in
    let w' := if to_parent then mkWorld (tree p) (comm w)
              else mkWorld (_pubsub w) (tree p) in
    let e := if to_parent then ToParent topic value retain
             else ToDevice topic value retain in
    match out p with
    | Raise err => Some (Raise err, w', [e])
    | Ok _ =>
        match nested (calls p) w' with
        | Some (x, w'', es) => Some (x, w'', e :: es)
        | None => None
        end
    end in
  if py_eq (c_cbk c) (_on_device_publish self) then
    (* _subscribe_device *)
    match relay_args c with
    | Some (topic, value, retain) =>
        relayed true (_topic_prefix self ++ topic)%string value retain
    | None => Some (Raise TypeError, w, [])
    end
  else if py_eq (c_cbk c) (_subscribe_parent self) then
    (* _subscribe_parent; [self.comm] is open *)
    match relay_args c with
    | Some (topic, value, retain) =>
        if PyStr.startswith topic (_topic_prefix self) then
          relayed false (skip (String.length (_topic_prefix self)) topic)
                  value retain
        else Some (Ok tt, w, [])
    | None => Some (Raise TypeError, w, [])
    end
  else Some (Ok tt, w, [Notified c]).

(** The calls [cs] made by a walk, run one after the other; an exception
    ends the walk.  The calls of a walk are those the walk computes when
    it starts: a relay function only publishes, and a publish changes no
    subscriber list and no parent.  [fuel] bounds the depth of relays
    inside relays; [None] when it is exceeded. *)
Fixpoint deliver (self : Device) (fuel : nat) (cs : list call) (w : world)
  : option result :=
  match fuel with
  | O => None
  | S fuel' =>
      (fix each (cs : list call) (w : world) {struct cs} : option result :=
         match cs with
         | [] => Some (Ok tt, w, [])
         | c :: rest =>
             match relay_call self (deliver self fuel') c w with
             | Some (Ok _, w1, es1) =>
                 match each rest w1 with
                 | Some (x, w2, es2) => Some (x, w2, es1 ++ es2)
                 | None => None
                 end
             | other => other
             end
         end) cs w
  end.







End Device.

(** ** The public operations *)

(** A call of a public method of [PubSub]. *)
Inductive op : Type :=
| Publish (topic : string) (value retain src_cbk : pyval)
| Meta (topic : string) (meta : pyval)
| Get (topic : string)
| Subscribe (topic : string) (cbk skip_retained forward : pyval)
| Unsubscribe (topic : string) (cbk : pyval)
| Create (topic : string) (meta : option (list (string * pyval)))
         (subscriber_cbk skip_retained forward : pyval).

(** The call [o] on an engine whose prefix is [prefix]; a method without a
    [return] returns [None]. *)
Definition exec (prefix : string) (o : op) : M pyval :=
  match o with
  | Publish topic value retain src_cbk =>
      PubSub.publish prefix topic value retain src_cbk ;; ret VNone
  | Meta topic meta => PubSub.meta prefix topic meta ;; ret VNone
  | Get topic => PubSub.get topic
  | Subscribe topic cbk skip_retained forward =>
      PubSub.subscribe topic cbk skip_retained forward ;; ret VNone
  | Unsubscribe topic cbk => PubSub.unsubscribe topic cbk ;; ret VNone
  | Create topic meta subscriber_cbk skip_retained forward =>
      PubSub.create topic meta subscriber_cbk skip_retained forward ;;
      ret VNone
  end.

(** The trees an engine can be in: the tree of a new engine and the tree
    after any public call, whether it returned or raised. *)
Inductive reachable (prefix : string) : Topic -> Prop :=
| reachable_new : reachable prefix (_root (PubSub.__init__ (Some prefix)))
| reachable_exec root o :
    reachable prefix root -> reachable prefix (tree (exec prefix o root)).

(** The metadata argument of [create] as a value. *)
Definition meta_value (meta : option (list (string * pyval))) : pyval :=
  match meta with Some d => VDict d | None => VNone end.

(** ** The naming invariant *)

(** Every node below [t] carries the topic string joined from the parts that
    lead to it, [sofar] being the parts that lead to [t]. *)
Fixpoint well_named (sofar : list string) (t : Topic) : bool :=
  (_topic t =? PyStr.join sofar)
  && forallb (fun kc : string * Topic =>
                let (part, child) := kc in well_named (sofar ++ [part]) child)
             (children t).

(** A method keeps the naming invariant. *)
Definition keeps_names {A : Type} (m : M A) : Prop :=
  forall root, well_named [] root = true -> well_named [] (tree (m root)) = true.

(** ** Predicates on topics and methods *)

(** A topic of the ordinary value protocol: not empty and without the
    reserved suffixes. *)
Definition value_topic (topic : string) : Prop :=
  topic <> "" /\ PyStr.last_is topic "$" = false
  /\ PyStr.last_is topic "?" = false.


(** A method never raises. *)
Definition succeeds {A : Type} (m : M A) : Prop :=
  forall root, exists a, out (m root) = Ok a.

(** ** Induction principles *)

(** Induction on a value with the hypothesis on every item of a tuple and
    every value of a dict. *)
Section PyvalInduction.
Variable P : pyval -> Prop.
Hypothesis HNone : P VNone.
Hypothesis HBool : forall b, P (VBool b).
Hypothesis HInt : forall z, P (VInt z).
Hypothesis HStr : forall s, P (VStr s).
Hypothesis HFn : forall id, P (VFn id).
Hypothesis HTuple : forall l, Forall P l -> P (VTuple l).
Hypothesis HDict :
  forall d, Forall (fun kv => P (snd kv)) d -> P (VDict d).

Fixpoint pyval_rect' (x : pyval) : P x :=
  match x with
  | VNone => HNone
  | VBool b => HBool b
  | VInt z => HInt z
  | VStr s => HStr s
  | VFn id => HFn id
  | VTuple l =>
      HTuple l ((fix all (l : list pyval) : Forall P l :=
                   match l with
                   | [] => Forall_nil _
                   | x :: l' => Forall_cons x (pyval_rect' x) (all l')
                   end) l)
  | VDict d =>
      HDict d ((fix all (l : list (string * pyval))
                 : Forall (fun kv => P (snd kv)) l :=
                  match l with
                  | [] => Forall_nil _
                  | kv :: l' => Forall_cons kv (pyval_rect' (snd kv)) (all l')
                  end) d)
  end.
End PyvalInduction.

(** Induction on a tree with the hypothesis on every child. *)
Section TopicInduction.
Variable P : Topic -> Prop.
Hypothesis step :
  forall name value m ch subs,
    Forall (fun kc => P (snd kc)) ch -> P (mkTopic name value m ch subs).

Fixpoint Topic_rect' (t : Topic) : P t :=
  match t with
  | mkTopic name value m ch subs =>
      step name value m ch subs
           ((fix all (l : list (string * Topic))
              : Forall (fun kc => P (snd kc)) l :=
               match l with
               | [] => Forall_nil _
               | kc :: l' => Forall_cons kc (Topic_rect' (snd kc)) (all l')
               end) ch)
  end.
End TopicInduction.

(** ** Concrete engines *)

Module Scenario.

(** The root of a new [PubSub]. *)
Definition fresh : Topic := _root (PubSub.__init__ None).

Definition cbk1 : pyval := VFn 1.

(** [p.subscribe('a', cbk1); p.publish('a', 7, retain=True)] *)
Definition retained_7 : Topic :=
  tree ((PubSub.subscribe "a" cbk1 VNone VNone ;;
         PubSub.publish "" "a" (VInt 7) (VBool true) VNone) fresh).

(** [p.publish('a', 9, retain=False)] after that. *)
Definition transient_9 : run unit :=
  PubSub.publish "" "a" (VInt 9) (VBool false) VNone retained_7.

(** [p.publish('a', None, retain=True)] on a new engine. *)
Definition retained_null : Topic :=
  tree (PubSub.publish "" "a" VNone (VBool true) VNone fresh).

(** [p.publish('a', 1)] on a new engine: 'a' exists and never had a
    retained value. *)
Definition never_retained : Topic :=
  tree (PubSub.publish "" "a" (VInt 1) VNone VNone fresh).

(** [p.subscribe('a', 3)] on a new engine: 3 is not callable. *)
Definition subscribe_not_callable : run unit :=
  PubSub.subscribe "a" (VInt 3) VNone VNone fresh.

(** [p.create('a', {'default': 1, 'retain': 'maybe'})] on a new engine. *)
Definition create_bad_retain : run unit :=
  PubSub.create "a" (Some [("default", VInt 1); ("retain", VStr "maybe")])
                VNone VNone VNone fresh.

Definition u32 : pyval := VDict [("dtype", VStr "u32")].

(** [p.meta('foo', u32); p.subscribe('', cbk1, forward=True)] on a new
    engine with the empty prefix. *)
Definition with_meta : Topic :=
  tree ((PubSub.meta "" "foo" u32 ;;
         PubSub.subscribe "" cbk1 VNone (VBool true)) fresh).

(** [p.publish('foo', 5, retain=True); p.subscribe('', cbk1,
    skip_retained=True, forward=True)] on a new engine. *)
Definition with_value : Topic :=
  tree ((PubSub.publish "" "foo" (VInt 5) (VBool true) VNone ;;
         PubSub.subscribe "" cbk1 (VBool true) (VBool true)) fresh).

(** [p.subscribe('a', cbk1); p.subscribe('a', cbk1)] on a new engine. *)
Definition subscribed_twice : Topic :=
  tree ((PubSub.subscribe "a" cbk1 VNone VNone ;;
         PubSub.subscribe "a" cbk1 VNone VNone) fresh).



(** An engine with the prefix 'a' on which 'x' retains 1. *)
Definition engine_a : Topic :=
  tree (exec "a" (Publish "x" (VInt 1) (VBool true) VNone)
             (_root (PubSub.__init__ (Some "a")))).

(** [p.meta('a/b', u32)], then [p.subscribe('', cbk1, forward=True)],
    then [p.publish('$', None)] on that engine. *)
Definition a_meta : Topic := tree (PubSub.meta "a" "a/b" u32 engine_a).

Definition a_subscribed : Topic :=
  tree (PubSub.subscribe "" cbk1 VNone (VBool true) a_meta).

Definition a_broadcast : run unit :=
  PubSub.publish "a" "$" VNone VNone VNone a_subscribed.

End Scenario.

(** ** test/test_pubsub.py *)

Module PubSubTest.

(** [setUp]: the tree of [PubSub(topic_prefix='hello')]. *)
Definition p : Topic := _root (PubSub.__init__ (Some "hello")).

Definition sub1_fn : pyval := VFn 1.
Definition sub2_fn : pyval := VFn 2.

(** What a test callback appended to its list: [(topic, value)] for each
    of its calls. *)
Definition appended (cbk : pyval) (r : run unit) : list (list pyval) :=
  map (fun c => firstn 2 (c_args c))
      (filter (fun c => py_eq (c_cbk c) cbk) (calls r)).

End PubSubTest.

(** ** How the tree changes *)

(** A mutation of a node that keeps its topic string and its children. *)
Definition keeps_shape (f : Topic -> Topic) : Prop :=
  forall n, _topic (f n) = _topic n /\ children (f n) = children n.

(** One change of the tree by a method: a path resolution from the root, or
    a mutation, allowed by [F], of the node of a handle. *)
Inductive step (F : (Topic -> Topic) -> Prop) : Topic -> Topic -> Prop :=
| step_find create parts root root' :
    PubSub.find_walk create root [] parts = Some root' -> step F root root'
| step_update f h root :
    keeps_shape f -> F f -> step F root (update_at f h root).

Inductive grows (F : (Topic -> Topic) -> Prop) : Topic -> Topic -> Prop :=
| grows_refl root : grows F root root
| grows_step root root1 root2 :
    step F root root1 -> grows F root1 root2 -> grows F root root2.

(** A method changes the tree by such steps only. *)
Definition grower (F : (Topic -> Topic) -> Prop) {A : Type} (m : M A) : Prop :=
  forall root, grows F root (tree (m root)).

(** No node has two children under one part. *)
Fixpoint unique_parts (t : Topic) : Prop :=
  NoDup (map fst (children t))
  /\ (fix all (l : list (string * Topic)) : Prop :=
        match l with
        | [] => True
        | kc :: l' => unique_parts (snd kc) /\ all l'
        end) (children t).

(** The pairs [(callback, forward)] registered anywhere in a tree. *)
Fixpoint entries_of (t : Topic) : list (pyval * pyval) :=
  _subscribers t
  ++ flat_map (fun kc : string * Topic =>
                 let (_, child) := kc in entries_of child) (children t).

(** The topic without its trailing '/', '$' and '?' characters, by
    recursion on the string. *)
Fixpoint rstrip (s : string) : string :=
  match s with
  | EmptyString => EmptyString
  | String c r =>
      match rstrip r with
      | EmptyString =>
          if PyStr.in_strip_set c then EmptyString else String c EmptyString
      | r' => String c r'
      end
  end.

(** Every character of [s] is one of '/', '$', '?'. *)
Fixpoint all_reserved (s : string) : bool :=
  match s with
  | EmptyString => true
  | String c r => PyStr.in_strip_set c && all_reserved r
  end.

(** A method registers nobody and calls only callbacks that are registered
    with a true [forward] flag and are not [src_cbk]. *)
Definition forwards_only (src_cbk : pyval) {A : Type} (m : M A) : Prop :=
  forall root,
    entries_of (tree (m root)) = entries_of root
    /\ forall c, In c (calls (m root)) ->
                 py_eq (c_cbk c) src_cbk = false
                 /\ exists forward,
                     In (c_cbk c, forward) (entries_of root)
                     /\ truthy forward = true.

(** ** More concrete engines *)

Module Cases.

(** [p.subscribe('a/b', cbk, skip_retained=True);
    p.unsubscribe('a/b', cbk)] on a new engine: 'a' and 'a/b' exist. *)
Definition two_topics : Topic :=
  tree ((PubSub.subscribe "a/b" (VFn 1) (VBool true) VNone ;;
         PubSub.unsubscribe "a/b" (VFn 1)) (_root (PubSub.__init__ None))).

(** [p.subscribe('', cbk)] on a new engine: a subscriber at the root. *)
Definition watched : Topic :=
  tree (exec "" (Subscribe "" (VFn 1) VNone VNone)
             (_root (PubSub.__init__ (Some "")))).

(** [p.publish('a/b/', 2)] on it. *)
Definition watched_publish : run unit :=
  PubSub.publish "" "a/b/" (VInt 2) VNone VNone watched.

Definition watched_call : call :=
  mkCall (VFn 1) [VStr "a/b"; VInt 2; VNone] (tree watched_publish).

(** [p.publish('a/b', 2, retain=True); p.subscribe('a', cbk7)] on the
    engine with a subscriber at the root. *)
Definition late : run unit :=
  PubSub.subscribe "a" (VFn 7) VNone VNone
                   (tree (PubSub.publish "" "a/b" (VInt 2) (VBool true)
                                         VNone watched)).

(** [p.create('a/b', {'default': 3, 'retain': 'ON'}, cbk4)] on a new
    engine. *)
Definition created : run unit :=
  PubSub.create "a/b" (Some [("default", VInt 3); ("retain", VStr "ON")])
                (VFn 4) VNone VNone (_root (PubSub.__init__ None)).

(** [p.subscribe('', cbk1, forward=True); p.subscribe('a', cbk2)] on a
    new engine, then [p.publish('a$', 1)]. *)
Definition listened : Topic :=
  tree ((PubSub.subscribe "" (VFn 1) VNone (VBool true) ;;
         PubSub.subscribe "a" (VFn 2) VNone VNone)
          (_root (PubSub.__init__ None))).

Definition listened_meta : run unit :=
  PubSub.publish "" "a$" (VInt 1) VNone VNone listened.

Definition listened_call : call :=
  mkCall (VFn 1) [VStr "a$"; VInt 1; VBool true] (tree listened_meta).

End Cases.
(** * test/comm/count_table_u8.py: the table of bit counts *)

Module CountTable.

(** The loop [while k: ...] on the entry [count] of the uint8 array
    ([counts[i] += 1] wraps at 256); [None] when [fuel] turns do not
    bring [k] to zero. *)
Fixpoint while_k (fuel : nat) (k count : Z) : option Z :=
  match fuel with
  | O => None
  | S fuel' =>
      if (k =? 0)%Z then Some count
      else
        while_k fuel' (Z.shiftr k 1)
                (if (Z.land k 1 =? 0)%Z then count
                 else ((count + 1) mod 256)%Z)
  end.

(** [counts[i]] after the turn [i] of [for i in range(256)]: the entry
    starts at zero ([np.zeros]). *)
Definition entry (fuel : nat) (i : Z) : option Z := while_k fuel i 0.

(** The number of one bits among the eight low bits. *)
Definition ones (i : Z) : Z :=
  fold_right (fun b acc => (Z.b2z (Z.testbit i (Z.of_nat b)) + acc)%Z) 0%Z
             (seq 0 8).

End CountTable.

(** * Properties *)

(** ** Strings *)

Section StringFacts.

Lemma last_char_cons_nonempty (c : ascii) (r : string) :
  r <> EmptyString -> PyStr.last_char (String c r) = PyStr.last_char r.
Proof. destruct r; [congruence | reflexivity]. Qed.

Lemma endswith_empty (suf : string) :
  suf <> EmptyString -> PyStr.endswith EmptyString suf = false.
Proof. destruct suf; [congruence | reflexivity]. Qed.

(** A string that ends with a non-empty suffix has the last character of
    that suffix. *)
Lemma endswith_last_char (suf : string) :
  suf <> EmptyString ->
  forall s, PyStr.endswith s suf = true ->
            PyStr.last_char s = PyStr.last_char suf.
Proof.
  intros Hsuf s; induction s as [|c r IH]; intros H.
  - rewrite endswith_empty in H by assumption. discriminate.
  - change (PyStr.endswith (String c r) suf)
      with ((String c r =? suf) || PyStr.endswith r suf) in H.
    apply orb_true_iff in H as [H | H].
    + apply String.eqb_eq in H. now rewrite H.
    + rewrite last_char_cons_nonempty; [now apply IH|].
      intros ->. rewrite endswith_empty in H by assumption. discriminate.
Qed.

Lemma last_char_some_length (s : string) (c : ascii) :
  PyStr.last_char s = Some c -> (String.length s =? 0)%nat = false.
Proof. destruct s; [discriminate | reflexivity]. Qed.

Lemma last_is_endswith (s suf : string) (c : ascii) :
  PyStr.last_char suf = Some c ->
  PyStr.endswith s suf = true -> PyStr.last_is s c = true.
Proof.
  intros Hc H. unfold PyStr.last_is.
  rewrite (endswith_last_char suf) by (congruence || (intros ->; discriminate)).
  rewrite Hc. apply Ascii.eqb_refl.
Qed.

Lemma last_is_length (s : string) (c : ascii) :
  PyStr.last_is s c = true -> (String.length s =? 0)%nat = false.
Proof. destruct s; [discriminate | reflexivity]. Qed.

Lemma last_is_inj (s : string) (c c' : ascii) :
  PyStr.last_is s c = true -> PyStr.last_is s c' = true -> c = c'.
Proof.
  unfold PyStr.last_is. destruct (PyStr.last_char s); [|discriminate].
  intros H H'. apply Ascii.eqb_eq in H, H'. congruence.
Qed.

Lemma length_nonempty (s : string) :
  s <> EmptyString -> (String.length s =? 0)%nat = false.
Proof. destruct s; [congruence | reflexivity]. Qed.


End StringFacts.


(** ** The unit tests of the repository *)

Section UnitTests.
Import PubSubTest.

Example test_sub_pub :
  appended sub1_fn
    ((PubSub.subscribe "hello/world" sub1_fn VNone VNone ;;
      PubSub.publish "hello" "hello/world" (VStr "there") VNone VNone) p)
  = [[VStr "hello/world"; VStr "there"]].
Proof. reflexivity. Qed.

Example test_pub_sub_not_retained :
  appended sub1_fn
    ((PubSub.publish "hello" "hello/world" (VStr "there") VNone VNone ;;
      PubSub.subscribe "hello/world" sub1_fn VNone VNone) p)
  = [].
Proof. reflexivity. Qed.

Example test_pub_sub_retained :
  appended sub1_fn
    ((PubSub.publish "hello" "hello/world" (VStr "there") (VBool true)
                     VNone ;;
      PubSub.subscribe "hello/world" sub1_fn VNone VNone) p)
  = [[VStr "hello/world"; VStr "there"]].
Proof. reflexivity. Qed.

Example test_retained_dedup :
  appended sub1_fn
    ((PubSub.publish "hello" "hello/world" (VStr "there") (VBool true)
                     VNone ;;
      PubSub.subscribe "hello/world" sub1_fn VNone VNone ;;
      PubSub.publish "hello" "hello/world" (VStr "there") (VBool true)
                     VNone) p)
  = [[VStr "hello/world"; VStr "there"]].
Proof. reflexivity. Qed.

Example test_pub_src :
  appended sub1_fn
    ((PubSub.subscribe "hello/world" sub1_fn VNone VNone ;;
      PubSub.publish "hello" "hello/world" (VStr "there") VNone sub1_fn) p)
  = [].
Proof. reflexivity. Qed.

Example test_sub_parent :
  let r :=
    (PubSub.subscribe "" sub1_fn VNone VNone ;;
     PubSub.subscribe "hello/there" sub2_fn VNone VNone ;;
     PubSub.publish "hello" "hello/there/world" (VStr "value") VNone VNone)
      p in
  appended sub1_fn r = [[VStr "hello/there/world"; VStr "value"]]
  /\ appended sub2_fn r = [[VStr "hello/there/world"; VStr "value"]].
Proof. split; reflexivity. Qed.

Example test_unsub :
  appended sub1_fn
    ((PubSub.subscribe "hello/world" sub1_fn VNone VNone ;;
      PubSub.unsubscribe "hello/world" sub1_fn ;;
      PubSub.publish "hello" "hello/world" (VStr "there") VNone VNone) p)
  = [].
Proof. reflexivity. Qed.

Example test_get :
  let r1 := PubSub.publish "hello" "hello/world" (VStr "there") (VBool true)
                           VNone p in
  let r2 := PubSub.publish "hello" "hello/world" (VStr "new") (VBool true)
                           VNone (tree r1) in
  let r3 := PubSub.publish "hello" "hello/world" (VStr "newer") VNone VNone
                           (tree r2) in
  out (PubSub.get "hello/world" (tree r1)) = Ok (VStr "there")
  /\ out (PubSub.get "hello/world" (tree r2)) = Ok (VStr "new")
  /\ out (PubSub.get "hello/world" (tree r3)) = Ok VNone.
Proof. repeat split. Qed.

Example test_meta :
  appended sub1_fn
    ((PubSub.meta "hello" "hello/world" (VDict [("type", VStr "u32")]) ;;
      PubSub.subscribe "" sub1_fn VNone (VBool true) ;;
      PubSub.publish "hello" "$" VNone VNone VNone) p)
  = [[VStr "hello/world$"; VDict [("type", VStr "u32")]];
     [VStr "$"; VNone]].
Proof. reflexivity. Qed.

Example test_meta_other_subscribe_root :
  appended sub1_fn
    ((PubSub.subscribe "" sub1_fn VNone (VBool true) ;;
      PubSub.publish "hello" "other/$" VNone VNone VNone) p)
  = [[VStr "other/$"; VNone]].
Proof. reflexivity. Qed.

Example test_meta_other_subscribe_subtopic :
  appended sub1_fn
    ((PubSub.subscribe "other" sub1_fn VNone (VBool true) ;;
      PubSub.publish "hello" "other/$" VNone VNone VNone) p)
  = [[VStr "other/$"; VNone]].
Proof. reflexivity. Qed.

End UnitTests.

(** ** Dicts *)

Section DictFacts.
Context {A : Type}.
Implicit Types (d : list (string * A)) (k : string) (v : A).

Lemma dict_get_set_same d k v : dict_get (dict_set d k v) k = Some v.
Proof.
  induction d as [|[k' v'] d IH]; simpl.
  - now rewrite String.eqb_refl.
  - destruct (String.eqb_spec k' k) as [->|Hne]; simpl.
    + now rewrite String.eqb_refl.
    + apply String.eqb_neq in Hne. now rewrite Hne.
Qed.

Lemma dict_set_get_id d k v : dict_get d k = Some v -> dict_set d k v = d.
Proof.
  induction d as [|[k' v'] d IH]; simpl; [discriminate|].
  destruct (String.eqb_spec k' k) as [->|Hne].
  - now intros [= ->].
  - intros H. now rewrite IH.
Qed.

Lemma dict_get_In d k v : dict_get d k = Some v -> In (k, v) d.
Proof.
  induction d as [|[k' v'] d IH]; simpl; [discriminate|].
  destruct (String.eqb_spec k' k) as [->|Hne].
  - intros [= ->]. now left.
  - intros H. right. now apply IH.
Qed.

Lemma dict_set_In d k v x :
  In x (dict_set d k v) -> x = (k, v) \/ In x d.
Proof.
  induction d as [|[k' v'] d IH]; simpl.
  - intros [<-|[]]. now left.
  - destruct (k' =? k); simpl.
    + intros [<-|H]; [now left | right; now right].
    + intros [<-|H]; [right; now left|].
      destruct (IH H) as [->|H']; [now left | right; now right].
Qed.

End DictFacts.

(** ** The tree *)


Section TreeFacts.
Implicit Types (t root : Topic) (h parts : list string).

Lemma set_children_same t : set_children (children t) t = t.
Proof. now destruct t. Qed.

(** With [create=True] the loop of [_topic_find] never returns [None]. *)
Lemma find_walk_create parts :
  forall t sofar, exists t', PubSub.find_walk true t sofar parts = Some t'.
Proof.
  induction parts as [|part rest IH]; intros t sofar; simpl.
  - now exists t.
  - destruct (dict_get (children t) part) as [child|].
    + destruct (IH child (sofar ++ [part])) as [c' ->]. eauto.
    + destruct (IH (Topic_init (PyStr.join (sofar ++ [part])))
                   (sofar ++ [part])) as [c' ->]. eauto.
Qed.

(** After the loop the parts resolve. *)
Lemma node_at_find_walk create parts :
  forall t sofar t',
    PubSub.find_walk create t sofar parts = Some t' ->
    exists node, node_at t' parts = Some node.
Proof.
  induction parts as [|part rest IH]; intros t sofar t'; simpl.
  - intros [= <-]. eauto.
  - destruct (dict_get (children t) part) as [child|].
    + destruct (PubSub.find_walk create child _ rest) as [c'|] eqn:E;
        [|discriminate].
      intros [= <-]. simpl. rewrite dict_get_set_same. eauto.
    + destruct create; [|discriminate].
      destruct (PubSub.find_walk true _ _ rest) as [c'|] eqn:E;
        [|discriminate].
      intros [= <-]. simpl. rewrite dict_get_set_same. eauto.
Qed.

(** Where the parts already resolve the loop changes nothing, whatever
    [create] is. *)
Lemma find_walk_existing create parts :
  forall t sofar node,
    node_at t parts = Some node ->
    PubSub.find_walk create t sofar parts = Some t.
Proof.
  induction parts as [|part rest IH]; intros t sofar node; simpl.
  - reflexivity.
  - destruct (dict_get (children t) part) as [child|] eqn:G; [|discriminate].
    intros H. rewrite (IH _ _ _ H).
    now rewrite (dict_set_get_id _ _ _ G), set_children_same.
Qed.

(** With [create=False] the loop never changes the tree. *)
Lemma find_walk_no_create parts :
  forall t sofar t',
    PubSub.find_walk false t sofar parts = Some t' -> t' = t.
Proof.
  induction parts as [|part rest IH]; intros t sofar t'; simpl.
  - now intros [= <-].
  - destruct (dict_get (children t) part) as [child|] eqn:G; [|discriminate].
    destruct (PubSub.find_walk false child _ rest) as [c'|] eqn:E;
      [|discriminate].
    intros [= <-]. apply IH in E as ->.
    now rewrite (dict_set_get_id _ _ _ G), set_children_same.
Qed.

(** With [create=False] the loop returns [None] exactly where the parts
    do not resolve. *)
Lemma find_walk_missing parts :
  forall t sofar,
    node_at t parts = None -> PubSub.find_walk false t sofar parts = None.
Proof.
  induction parts as [|part rest IH]; intros t sofar; simpl.
  - discriminate.
  - destruct (dict_get (children t) part) as [child|]; [|reflexivity].
    intros H. now rewrite (IH _ _ H).
Qed.

Lemma node_at_update_at f h :
  forall t node,
    node_at t h = Some node -> node_at (update_at f h t) h = Some (f node).
Proof.
  induction h as [|part rest IH]; intros t node; simpl.
  - now intros [= ->].
  - destruct (dict_get (children t) part) as [child|] eqn:G; [|discriminate].
    intros H. simpl. rewrite dict_get_set_same. now apply IH.
Qed.

Lemma update_at_id f h :
  forall t node,
    node_at t h = Some node -> f node = node -> update_at f h t = t.
Proof.
  induction h as [|part rest IH]; intros t node; simpl.
  - now intros [= ->].
  - destruct (dict_get (children t) part) as [child|] eqn:G; [|discriminate].
    intros H Hf. rewrite (IH _ _ H Hf).
    now rewrite (dict_set_get_id _ _ _ G), set_children_same.
Qed.

End TreeFacts.

(** ** Python equality *)


Section PyEqFacts.

(** Every value of the model equals itself. *)
Lemma py_eq_refl (x : pyval) : py_eq x x = true.
Proof.
  induction x using pyval_rect'; simpl.
  - reflexivity.
  - apply Bool.eqb_reflx.
  - apply Z.eqb_refl.
  - apply String.eqb_refl.
  - apply Nat.eqb_refl.
  - induction H as [|x l Hx _ IH]; [reflexivity|]. now rewrite Hx, IH.
  - rewrite Forall_forall in H.
    assert (E : forall kv, In kv d ->
                existsb (fun kw : string * pyval =>
                           let (k', w) := kw in
                           let (k, v) := kv in (k =? k') && py_eq v w) d
                = true).
    { intros [k v] Hin. apply existsb_exists. exists (k, v). split; [easy|].
      rewrite String.eqb_refl. apply (H _ Hin). }
    apply andb_true_iff; split; apply forallb_forall; intros [k v] Hin.
    + apply (E (k, v) Hin).
    + apply existsb_exists. exists (k, v). split; [easy|].
      rewrite String.eqb_refl. apply (H _ Hin).
Qed.

(** Only [None] equals [None]. *)
Lemma py_eq_None_r (x : pyval) : py_eq x VNone = is_None x.
Proof. now destruct x. Qed.

Lemma is_None_true (x : pyval) : is_None x = true -> x = VNone.
Proof. now destruct x. Qed.

End PyEqFacts.

(** ** Path resolution *)

Section FindFacts.
Implicit Types (root : Topic) (topic : string).

(** [_topic_find(topic, create=True)] returns the node of the parts of
    the topic, which resolve in the tree it leaves. *)
Lemma topic_find_create topic root :
  exists root' node,
    PubSub._topic_find topic true root
    = mkRun (Ok (Some (PubSub.parts_of topic))) root' []
    /\ node_at root' (PubSub.parts_of topic) = Some node.
Proof.
  unfold PubSub._topic_find.
  destruct (find_walk_create (PubSub.parts_of topic) root []) as [root' E].
  rewrite E. destruct (node_at_find_walk _ _ _ _ _ E) as [node Hn].
  now exists root', node.
Qed.

(** On a topic that resolves [_topic_find] changes nothing. *)
Lemma topic_find_existing topic create root node :
  node_at root (PubSub.parts_of topic) = Some node ->
  PubSub._topic_find topic create root
  = mkRun (Ok (Some (PubSub.parts_of topic))) root [].
Proof.
  intros H. unfold PubSub._topic_find.
  now rewrite (find_walk_existing _ _ _ _ _ H).
Qed.

(** On a topic that does not resolve [_topic_find(topic, create=False)]
    returns [None]. *)
Lemma topic_find_missing topic root :
  node_at root (PubSub.parts_of topic) = None ->
  PubSub._topic_find topic false root = mkRun (Ok None) root [].
Proof.
  intros H. unfold PubSub._topic_find. now rewrite find_walk_missing.
Qed.

(** [_topic_find(topic, create=False)] never changes the tree. *)
Lemma topic_find_no_create topic root :
  tree (PubSub._topic_find topic false root) = root
  /\ calls (PubSub._topic_find topic false root) = [].
Proof.
  unfold PubSub._topic_find.
  destruct (PubSub.find_walk false root [] _) as [root'|] eqn:E; [|easy].
  now rewrite (find_walk_no_create _ _ _ _ E).
Qed.

(** [get] on a topic that resolves. *)
Lemma get_existing topic root node :
  node_at root (PubSub.parts_of topic) = Some node ->
  PubSub.get topic root = mkRun (Ok (_value node)) root [].
Proof.
  intros H. unfold PubSub.get, bind.
  rewrite (topic_find_existing _ _ _ _ H). simpl.
  unfold read. now rewrite H.
Qed.

(** [get] on a topic that does not resolve. *)
Lemma get_missing topic root :
  node_at root (PubSub.parts_of topic) = None ->
  PubSub.get topic root = mkRun (Raise KeyError) root [].
Proof.
  intros H. unfold PubSub.get, bind.
  now rewrite (topic_find_missing _ _ H).
Qed.

End FindFacts.


Section PublishFacts.

(** The dispatch of [publish] on a value topic. *)
Lemma publish_value_topic prefix topic value retain src_cbk :
  value_topic topic ->
  PubSub.publish prefix topic value retain src_cbk
  = (let* t := PubSub._topic_find topic true in
     PubSub.on_node t (fun t => _Topic.publish t value retain src_cbk)
                    (ret tt)).
Proof.
  intros (Hne & Hd & Hq). unfold PubSub.publish.
  rewrite (length_nonempty _ Hne).
  destruct (String.eqb_spec topic "$") as [->|_]; [discriminate|].
  destruct (PyStr.endswith topic "/$") eqn:E.
  - apply (last_is_endswith topic "/$" "$"%char eq_refl) in E. congruence.
  - now rewrite Hd, Hq.
Qed.

(** The run of [publish] on a value topic, from the tree [root1] that
    path resolution leaves and the node it resolves to. *)
Lemma publish_value_run prefix topic value retain src_cbk root root1 node :
  value_topic topic ->
  PubSub._topic_find topic true root
  = mkRun (Ok (Some (PubSub.parts_of topic))) root1 [] ->
  node_at root1 (PubSub.parts_of topic) = Some node ->
  PubSub.publish prefix topic value retain src_cbk root
  = if truthy retain && py_eq (_value node) value
    then mkRun (Ok tt) root1 []
    else
      let root2 :=
        update_at (set_value (if truthy retain then value else VNone))
                  (PubSub.parts_of topic) root1 in
      mkRun (Ok tt) root2
            (_Topic.notify (_topic node) value retain src_cbk
                           (chain root2 (PubSub.parts_of topic)) root2).
Proof.
  intros HT E Hn. rewrite (publish_value_topic _ _ _ _ _ HT).
  unfold bind at 1. rewrite E. cbn [out tree calls PubSub.on_node].
  unfold _Topic.publish. rewrite Hn.
  destruct (truthy retain); [destruct (py_eq (_value node) value)|];
    reflexivity.
Qed.

End PublishFacts.

(** ** Retained values (C5) *)



(** ** The reserved query suffix (C9) *)

(** C9: for every topic string ending in '?', [publish] returns normally,
    leaves the tree (nodes, retained values, metadata, subscriber lists)
    exactly as it was, and calls no subscriber. *)
Theorem publish_query_is_noop
        (prefix topic : string) (value retain src_cbk : pyval) (root : Topic) :
  PyStr.endswith topic "?" = true ->
  PubSub.publish prefix topic value retain src_cbk root = mkRun (Ok tt) root [].
Proof.
  intros H.
  apply (last_is_endswith topic "?" "?"%char eq_refl) in H.
  unfold PubSub.publish.
  rewrite (last_is_length _ _ H).
  destruct (String.eqb_spec topic "$") as [->|_]; [discriminate|].
  destruct (PyStr.endswith topic "/$") eqn:E.
  - apply (last_is_endswith topic "/$" "$"%char eq_refl) in E.
    pose proof (last_is_inj _ _ _ H E). discriminate.
  - destruct (PyStr.last_is topic "$") eqn:E'.
    + pose proof (last_is_inj _ _ _ H E'). discriminate.
    + rewrite H. reflexivity.
Qed.

Lemma publish_query_is_noop_witness :
  PyStr.endswith "hello/world?" "?" = true
  /\ PubSub.publish "hello" "hello/world?" (VStr "there") (VBool true) VNone
                    Scenario.retained_7
     = mkRun (Ok tt) Scenario.retained_7 [].
Proof.
  split; [reflexivity|].
  apply (publish_query_is_noop "hello" "hello/world?"). reflexivity.
Defined.

(** ** The notification walks *)

Section WalkFacts.

(** What [publish] delivers: every call goes to a subscriber of a visited
    node other than [src_cbk], with the topic of the publishing node, the
    value and the retain flag. *)
Lemma notify_In name x retain src_cbk visited seen c :
  In c (_Topic.notify name x retain src_cbk visited seen) <->
  exists node forward,
    In node visited /\ In (c_cbk c, forward) (_subscribers node)
    /\ py_eq (c_cbk c) src_cbk = false
    /\ c_args c = [VStr name; x; retain] /\ c_seen c = seen.
Proof.
  unfold _Topic.notify. rewrite in_flat_map. split.
  - intros (node & Hn & H). apply in_flat_map in H as ([s f] & Hs & H).
    destruct (py_eq s src_cbk) eqn:E; [destruct H|].
    destruct H as [<-|[]]. now exists node, f.
  - intros (node & f & Hn & Hs & E & Ha & Hseen).
    exists node. split; [assumption|]. apply in_flat_map.
    exists (c_cbk c, f). split; [assumption|]. rewrite E. left.
    destruct c; simpl in *. congruence.
Qed.

(** What [forward] delivers: the same, to forward-flagged subscribers. *)
Lemma forward_calls_In topic value retain src_cbk visited seen c :
  In c (_Topic.forward_calls topic value retain src_cbk visited seen) <->
  exists node forward,
    In node visited /\ In (c_cbk c, forward) (_subscribers node)
    /\ py_eq (c_cbk c) src_cbk = false /\ truthy forward = true
    /\ c_args c = [VStr topic; value; retain] /\ c_seen c = seen.
Proof.
  unfold _Topic.forward_calls. rewrite in_flat_map. split.
  - intros (node & Hn & H). apply in_flat_map in H as ([s f] & Hs & H).
    destruct (py_eq s src_cbk) eqn:E; [destruct H|].
    destruct (truthy f) eqn:F; [|destruct H].
    destruct H as [<-|[]]. now exists node, f.
  - intros (node & f & Hn & Hs & E & F & Ha & Hseen).
    exists node. split; [assumption|]. apply in_flat_map.
    exists (c_cbk c, f). split; [assumption|]. rewrite E, F. left.
    destruct c; simpl in *. congruence.
Qed.

End WalkFacts.

(** ** Publishing without retain (C4) *)

(** C4 (counterexample): the value is not cleared after delivery.  The
    topic 'a' holds the retained
    value 7 and has a subscriber; during [publish('a', 9, retain=False)]
    the subscriber is called while the topic is already cleared, not while
    it still holds 7. *)
Lemma publish_clears_after_delivery_counterexample :
  out (PubSub.get "a" Scenario.retained_7) = Ok (VInt 7)
  /\ calls Scenario.transient_9 <> []
  /\ ~ (forall c,
          In c (calls Scenario.transient_9) ->
          out (PubSub.get "a" (c_seen c)) = Ok (VInt 7)).
Proof.
  split; [reflexivity|]. split; [discriminate|].
  intros H. specialize (H _ (or_introl eq_refl)). discriminate H.
Qed.

(** C4 (amended): for every value topic and value, [publish] with a false
    [retain] first clears the retained value of the node to absent and then
    delivers the transient value to the subscribers of the node and of its
    ancestors other than [src_cbk]; every subscriber is called with the
    topic already cleared, and [get] afterwards returns absent. *)
Theorem publish_no_retain_clears_then_delivers
        (prefix T : string) (V retain src_cbk : pyval) (root : Topic) :
  value_topic T ->
  truthy retain = false ->
  let r := PubSub.publish prefix T V retain src_cbk root in
  out r = Ok tt
  /\ (exists node,
        node_at (tree r) (PubSub.parts_of T) = Some node
        /\ _value node = VNone
        /\ calls r = _Topic.notify (_topic node) V retain src_cbk
                                   (chain (tree r) (PubSub.parts_of T))
                                   (tree r))
  /\ (forall c, In c (calls r) ->
                nth_error (c_args c) 1 = Some V
                /\ out (PubSub.get T (c_seen c)) = Ok VNone)
  /\ out (PubSub.get T (tree r)) = Ok VNone.
Proof.
  intros HT Hr. rewrite (publish_value_topic _ _ _ _ _ HT).
  destruct (topic_find_create T root) as (root1 & node & E & Hn).
  unfold bind at 1. rewrite E. cbn [out tree calls PubSub.on_node].
  unfold _Topic.publish. rewrite Hn, Hr.
  unfold bind, write, invoke. cbn [out tree calls app].
  pose proof (node_at_update_at (set_value VNone) _ _ _ Hn) as Hn'.
  set (root2 := update_at (set_value VNone) (PubSub.parts_of T) root1) in *.
  assert (G : out (PubSub.get T root2) = Ok VNone)
    by now rewrite (get_existing _ _ _ Hn').
  split; [reflexivity|]. split; [|split; [|exact G]].
  - exists (set_value VNone node). now repeat split.
  - intros c Hc. apply notify_In in Hc as (n & f & _ & _ & _ & Ha & Hs).
    rewrite Ha, Hs. now split.
Qed.

Lemma publish_no_retain_clears_then_delivers_witness :
  value_topic "a" /\ truthy (VBool false) = false
  /\ out Scenario.transient_9 = Ok tt
  /\ (exists node,
        node_at (tree Scenario.transient_9) (PubSub.parts_of "a") = Some node
        /\ _value node = VNone
        /\ calls Scenario.transient_9
           = _Topic.notify (_topic node) (VInt 9) (VBool false) VNone
                           (chain (tree Scenario.transient_9)
                                  (PubSub.parts_of "a"))
                           (tree Scenario.transient_9))
  /\ (forall c, In c (calls Scenario.transient_9) ->
                nth_error (c_args c) 1 = Some (VInt 9)
                /\ out (PubSub.get "a" (c_seen c)) = Ok VNone)
  /\ out (PubSub.get "a" (tree Scenario.transient_9)) = Ok VNone.
Proof.
  assert (HT : value_topic "a")
    by (split; [discriminate | split; reflexivity]).
  split; [exact HT|]. split; [reflexivity|].
  exact (publish_no_retain_clears_then_delivers
           "" "a" (VInt 9) (VBool false) VNone Scenario.retained_7
           HT eq_refl).
Defined.

(** ** A retained null (C6) *)

Section CreatedNode.

Lemma node_at_init_missing name part rest :
  node_at (Topic_init name) (part :: rest) = None.
Proof. reflexivity. Qed.

(** A node that [_topic_find] had to create is a new [_Topic] named by
    the joined parts: no value, no metadata, no child, no subscriber. *)
Lemma find_walk_created parts :
  forall t sofar t',
    PubSub.find_walk true t sofar parts = Some t' ->
    node_at t parts = None ->
    node_at t' parts = Some (Topic_init (PyStr.join (sofar ++ parts))).
Proof.
  induction parts as [|part rest IH]; intros t sofar t'; simpl.
  - discriminate.
  - destruct (dict_get (children t) part) as [child|].
    + destruct (PubSub.find_walk true child _ rest) as [c'|] eqn:E;
        [|discriminate].
      intros [= <-] Hm. simpl. rewrite dict_get_set_same.
      rewrite (IH _ _ _ E Hm). now rewrite <- app_assoc.
    + destruct (PubSub.find_walk true _ _ rest) as [c'|] eqn:E;
        [|discriminate].
      intros [= <-] _. simpl. rewrite dict_get_set_same.
      destruct rest as [|part' rest'].
      * simpl in E. now injection E as <-.
      * rewrite (IH _ _ _ E (node_at_init_missing _ _ _)).
        now rewrite <- app_assoc.
Qed.

End CreatedNode.

(** C6 (counterexample): a retained null is not observable.  The tree
    after
    [publish('a', None, retain=True)] on a new engine is the tree after a
    publish on 'a' that retained nothing, so no observation of the stored
    state tells them apart. *)
Lemma retained_null_is_observable_counterexample :
  ~ (exists observe : Topic -> bool,
        observe Scenario.retained_null <> observe Scenario.never_retained).
Proof. intros [observe H]. now apply H. Qed.

(** C6 (amended): the stored state does not distinguish a retained null
    from an absent value.  For every value topic T,
    [publish(T, None, retain=True)] leaves exactly the tree that a publish
    on T without retain leaves, [get(T)] returns [None] after it, and on a
    topic that holds no retained value (or does not exist yet) it is
    de-duplicated: T is auto-created, nothing else changes and nobody is
    called. *)
Theorem retained_null_is_absent
        (prefix T : string) (retain src_cbk x retain' src_cbk' : pyval)
        (root : Topic) :
  value_topic T ->
  truthy retain = true ->
  truthy retain' = false ->
  let r := PubSub.publish prefix T VNone retain src_cbk root in
  tree r = tree (PubSub.publish prefix T x retain' src_cbk' root)
  /\ out (PubSub.get T (tree r)) = Ok VNone
  /\ (out (PubSub.get T root) = Ok VNone
      \/ out (PubSub.get T root) = Raise KeyError ->
      r = mkRun (Ok tt) (tree (PubSub._topic_find T true root)) []).
Proof.
  intros HT Hr Hr'.
  destruct (topic_find_create T root) as (root1 & node & E & Hn).
  rewrite (publish_value_run _ _ _ _ _ _ _ _ HT E Hn).
  rewrite (publish_value_run _ _ _ _ _ _ _ _ HT E Hn).
  rewrite E, Hr, Hr', py_eq_None_r. cbn [andb tree].
  pose proof (node_at_update_at (set_value VNone) _ _ _ Hn) as Hn'.
  destruct (is_None (_value node)) eqn:V; cbn [out tree calls].
  - apply is_None_true in V.
    assert (U : update_at (set_value VNone) (PubSub.parts_of T) root1 = root1).
    { apply (update_at_id _ _ _ _ Hn). destruct node; simpl in *. now subst. }
    rewrite U. split; [reflexivity|]. split; [|reflexivity].
    now rewrite (get_existing _ _ _ Hn), V.
  - split; [reflexivity|]. split; [now rewrite (get_existing _ _ _ Hn')|].
    intros Hold. exfalso.
    unfold PubSub._topic_find in E.
    destruct (PubSub.find_walk true root [] (PubSub.parts_of T))
      as [root1'|] eqn:W; [|discriminate].
    injection E as <-.
    destruct (node_at root (PubSub.parts_of T)) as [old|] eqn:O.
    + rewrite (find_walk_existing _ _ _ _ _ O) in W. injection W as <-.
      rewrite (get_existing _ _ _ O) in Hold. simpl in Hold.
      rewrite O in Hn. injection Hn as ->.
      destruct Hold as [[= Hv]|[=]]. now rewrite Hv in V.
    + rewrite (find_walk_created _ _ _ _ W O) in Hn. injection Hn as <-.
      discriminate V.
Qed.

Lemma retained_null_is_absent_witness :
  value_topic "a" /\ truthy (VBool true) = true /\ truthy VNone = false
  /\ tree (PubSub.publish "" "a" VNone (VBool true) VNone Scenario.fresh)
     = tree (PubSub.publish "" "a" (VInt 9) VNone VNone Scenario.fresh)
  /\ out (PubSub.get "a"
            (tree (PubSub.publish "" "a" VNone (VBool true) VNone
                                  Scenario.fresh))) = Ok VNone
  /\ (out (PubSub.get "a" Scenario.fresh) = Ok VNone
      \/ out (PubSub.get "a" Scenario.fresh) = Raise KeyError ->
      PubSub.publish "" "a" VNone (VBool true) VNone Scenario.fresh
      = mkRun (Ok tt)
              (tree (PubSub._topic_find "a" true Scenario.fresh)) []).
Proof.
  assert (HT : value_topic "a")
    by (split; [discriminate | split; reflexivity]).
  split; [exact HT|]. split; [reflexivity|]. split; [reflexivity|].
  exact (retained_null_is_absent "" "a" (VBool true) VNone (VInt 9) VNone VNone
                                 Scenario.fresh HT eq_refl eq_refl).
Defined.

(** ** Who gets called *)

Section DictOrder.
Context {A B : Type}.
Implicit Types (d : list (string * A)) (g : string * A -> list B).

Lemma dict_set_missing d k v :
  dict_get d k = None -> dict_set d k v = d ++ [(k, v)].
Proof.
  induction d as [|[k' v'] d IH]; simpl; [reflexivity|].
  destruct (k' =? k); [discriminate|]. intros H. now rewrite IH.
Qed.

Lemma flat_map_dict_set_replace g d k v v' :
  dict_get d k = Some v -> g (k, v') = g (k, v) ->
  flat_map g (dict_set d k v') = flat_map g d.
Proof.
  intros H Hg. induction d as [|[k' w] d IH]; simpl in *; [discriminate|].
  destruct (String.eqb_spec k' k) as [->|Hne]; simpl.
  - injection H as ->. now rewrite Hg.
  - now rewrite IH.
Qed.

End DictOrder.

Section Subscribed.
Implicit Types (t root : Topic) (h parts : list string).








End Subscribed.


Section Quiet.
Variable src_cbk : pyval.









End Quiet.

Section QuietEngine.
Variable src_cbk : pyval.







End QuietEngine.

(** ** The bridge *)

Section Bridge.
Variable self : Device.Device.

Lemma deliver_nil k w :
  Device.deliver self (S k) [] w = Some (Ok tt, w, []).
Proof. reflexivity. Qed.









End Bridge.

(** ** The excluded source callback (C7) *)




(** ** Failures (C3) *)

Section Failures.
Implicit Types (root : Topic) (topic : string).

Lemma bind_ret_out {A} (m : M A) root e :
  out ((m ;; ret VNone) root) = Raise e -> out (m root) = Raise e.
Proof.
  unfold bind, ret.
  destruct (out (m root)); cbn; intros H; [discriminate H | now injection H as ->].
Qed.

Lemma bind_ret_tree {A} (m : M A) root :
  tree ((m ;; ret VNone) root) = tree (m root).
Proof. unfold bind, ret. now destruct (out (m root)). Qed.

Lemma bind_ret_calls {A} (m : M A) root :
  calls ((m ;; ret VNone) root) = calls (m root).
Proof.
  unfold bind, ret. destruct (out (m root)); cbn; [apply app_nil_r|easy].
Qed.


Lemma succeeds_bind {A B} (m : M A) (f : A -> M B) :
  succeeds m -> (forall a, succeeds (f a)) -> succeeds (bind m f).
Proof.
  intros Hm Hf root. unfold bind. destruct (Hm root) as [a ->].
  destruct (Hf a (tree (m root))) as [b Hb]. cbn. eauto.
Qed.

Lemma succeeds_ret {A} (a : A) : succeeds (ret a).
Proof. intros root. now exists a. Qed.

Lemma succeeds_topic_find topic create :
  succeeds (PubSub._topic_find topic create).
Proof.
  intros root. unfold PubSub._topic_find.
  destruct (PubSub.find_walk _ _ _ _); cbn; eauto.
Qed.

Lemma succeeds_Topic_publish h x retain src_cbk :
  succeeds (_Topic.publish h x retain src_cbk).
Proof.
  intros root. unfold _Topic.publish.
  destruct (node_at root h); [|now exists tt].
  destruct (truthy retain); [destruct (py_eq _ _)|]; now exists tt.
Qed.

(** [publish] raises on the empty topic only. *)
Lemma publish_succeeds prefix topic value retain src_cbk :
  topic <> "" ->
  succeeds (PubSub.publish prefix topic value retain src_cbk).
Proof.
  intros Hne. unfold PubSub.publish. rewrite (length_nonempty _ Hne).
  destruct (topic =? "$").
  { apply succeeds_bind; [apply succeeds_topic_find|]. intros t root.
    destruct t; now exists tt. }
  destruct (PyStr.endswith topic "/$").
  { destruct (PyStr.startswith topic prefix).
    - apply succeeds_bind; [apply succeeds_topic_find|]. intros t root.
      destruct t; now exists tt.
    - intros root. now exists tt. }
  destruct (PyStr.last_is topic "$").
  { apply succeeds_bind; [apply succeeds_topic_find|]. intros [h|] root;
      cbn [PubSub.on_node]; [|now exists tt].
    destruct (PyStr.startswith topic prefix); [|now exists tt].
    destruct (is_None value); [|now exists tt].
    unfold bind, read. cbn.
    destruct (negb (is_None _)); now exists tt. }
  destruct (PyStr.last_is topic "?"); [apply succeeds_ret|].
  apply succeeds_bind; [apply succeeds_topic_find|]. intros [h|];
    cbn [PubSub.on_node]; [apply succeeds_Topic_publish|apply succeeds_ret].
Qed.

Lemma publish_empty prefix value retain src_cbk root :
  PubSub.publish prefix "" value retain src_cbk root
  = mkRun (Raise ValueError) root [].
Proof. reflexivity. Qed.

Lemma publish_raises prefix topic value retain src_cbk root e :
  out (PubSub.publish prefix topic value retain src_cbk root) = Raise e ->
  PubSub.publish prefix topic value retain src_cbk root
  = mkRun (Raise e) root [].
Proof.
  destruct (String.eqb_spec topic "") as [->|Hne].
  - rewrite publish_empty. now intros [= <-].
  - destruct (publish_succeeds prefix topic value retain src_cbk Hne root)
      as [a ->]. discriminate.
Qed.

(** A callable is never found among the tuples of [_subscribers]. *)
Lemma callable_not_in_items cbk self :
  callable cbk = true -> py_in cbk (_Topic.subscriber_items self) = false.
Proof.
  intros Hc. unfold py_in, _Topic.subscriber_items.
  induction (_subscribers self) as [|[c f] l IH]; [reflexivity|].
  cbn [map existsb]. rewrite IH. now destruct cbk.
Qed.

Lemma Topic_subscribe_raises h cbk skip_retained forward root e :
  out (_Topic.subscribe h cbk skip_retained forward root) = Raise e ->
  _Topic.subscribe h cbk skip_retained forward root
  = mkRun (Raise e) root [] /\ callable cbk = false.
Proof.
  unfold _Topic.subscribe. destruct (callable cbk); cbn [negb].
  - unfold bind, read. cbn [out tree calls].
    destruct (node_at root h) as [self|]; [|discriminate].
    destruct (negb (py_in cbk _)), (negb (truthy skip_retained));
      discriminate.
  - now intros [= <-].
Qed.

End Failures.

(** C3 (counterexample): a failure can leave the tree changed.  On a new
    engine [subscribe] with a
    callback that is not callable raises after the node 'a' was created,
    and [create] with a default and an unrecognized retain spelling raises
    after the node was created and the metadata stored. *)
Lemma failure_leaves_tree_counterexample :
  (out Scenario.subscribe_not_callable = Raise ValueError
   /\ tree Scenario.subscribe_not_callable <> Scenario.fresh
   /\ out (PubSub.get "a" (tree Scenario.subscribe_not_callable)) = Ok VNone)
  /\ (out Scenario.create_bad_retain = Raise ValueError
      /\ tree Scenario.create_bad_retain <> Scenario.fresh
      /\ exists node,
          node_at (tree Scenario.create_bad_retain) ["a"] = Some node
          /\ meta node
             = VDict [("default", VInt 1); ("retain", VStr "maybe")]).
Proof.
  repeat split; try reflexivity; try discriminate.
  eexists. split; reflexivity.
Qed.

Section FailureCases.
Implicit Types (root : Topic) (topic : string).

Lemma bind_run {A B} (m : M A) (f : A -> M B) root o t cs :
  m root = mkRun o t cs ->
  bind m f root
  = match o with
    | Ok a => mkRun (out (f a t)) (tree (f a t)) (cs ++ calls (f a t))
    | Raise e => mkRun (Raise e) t cs
    end.
Proof. unfold bind. now intros ->. Qed.

Lemma get_raises topic root e :
  out (PubSub.get topic root) = Raise e ->
  PubSub.get topic root = mkRun (Raise e) root [].
Proof.
  destruct (node_at root (PubSub.parts_of topic)) as [node|] eqn:G.
  - now rewrite (get_existing _ _ _ G).
  - rewrite (get_missing _ _ G). now intros [= <-].
Qed.

Lemma meta_raises prefix topic m root e :
  out (PubSub.meta prefix topic m root) = Raise e ->
  PubSub.meta prefix topic m root = mkRun (Raise e) root [].
Proof.
  unfold PubSub.meta. destruct (PyStr.last_char topic) as [c|].
  - apply publish_raises.
  - now intros [= <-].
Qed.

Lemma subscribe_raises topic cbk skip_retained forward root e :
  out (PubSub.subscribe topic cbk skip_retained forward root) = Raise e ->
  callable cbk = false
  /\ PubSub.subscribe topic cbk skip_retained forward root
     = mkRun (Raise e) (tree (PubSub._topic_find topic true root)) [].
Proof.
  unfold PubSub.subscribe, bind.
  destruct (topic_find_create topic root) as (root1 & node & E & Hn).
  rewrite E. cbn [out tree calls PubSub.on_node app].
  destruct (out (_Topic.subscribe _ cbk skip_retained forward root1)) eqn:O;
    [discriminate|].
  intros [= ->]. apply Topic_subscribe_raises in O as [-> Hc]. now cbn.
Qed.

Lemma unsubscribe_succeeds topic cbk : succeeds (PubSub.unsubscribe topic cbk).
Proof.
  intros root. unfold PubSub.unsubscribe, bind.
  destruct (topic_find_create topic root) as (root1 & node & E & Hn).
  rewrite E. cbn. now exists tt.
Qed.

(** The part of [create] that publishes the default keeps the metadata
    of the node. *)
Lemma create_default_keeps_meta h m subscriber_cbk root node :
  node_at root h = Some node ->
  let dflt :=
    match m with
    | Some d =>
        if dict_has d "default" then
          match _as_bool (match dict_get d "retain" with
                          | Some r => r
                          | None => VInt 0
                          end) with
          | Ok retain =>
              match dict_get d "default" with
              | Some x => _Topic.publish h x (VBool retain) subscriber_cbk
              | None => ret tt
              end
          | Raise e => raise e
          end
        else ret tt
    | None => ret tt
    end in
  exists node',
    node_at (tree (dflt root)) h = Some node' /\ meta node' = meta node.
Proof.
  intros Hn. cbv zeta. destruct m as [d|]; [|now exists node].
  destruct (dict_has d "default"); [|now exists node].
  destruct (_as_bool _) as [retain|]; [|now exists node].
  destruct (dict_get d "default") as [x|]; [|now exists node].
  unfold _Topic.publish. rewrite Hn.
  destruct (truthy (VBool retain)); [destruct (py_eq _ x)|];
    try (now exists node);
    unfold bind, write, invoke; cbn [out tree calls];
    eexists; (split; [apply (node_at_update_at _ _ _ _ Hn)|reflexivity]).
Qed.

Lemma create_raises topic m subscriber_cbk skip_retained forward root e :
  let r := PubSub.create topic m subscriber_cbk skip_retained forward root in
  out r = Raise e ->
  (exists node, node_at root (PubSub.parts_of topic) = Some node)
  /\ tree r = root /\ calls r = []
  \/
  node_at root (PubSub.parts_of topic) = None
  /\ exists node,
      node_at (tree r) (PubSub.parts_of topic) = Some node
      /\ meta node = meta_value m.
Proof.
  cbv zeta. unfold PubSub.create.
  destruct (node_at root (PubSub.parts_of topic)) as [old|] eqn:G.
  { intros _. left.
    rewrite (bind_run _ _ _ _ _ _ (topic_find_existing _ false _ _ G)).
    cbn. eauto. }
  rewrite (bind_run _ _ _ _ _ _ (topic_find_missing _ _ G)).
  destruct (topic_find_create topic root) as (root1 & node & E & Hn).
  rewrite (bind_run _ _ _ _ _ _ E).
  cbn [out tree calls app PubSub.on_node].
  pose proof (node_at_update_at (set_meta (meta_value m)) _ _ _ Hn) as Hn2.
  fold (meta_value m).
  rewrite (bind_run _ _ _ (Ok tt) _ [] eq_refl).
  cbn [out tree calls app].
  destruct (create_default_keeps_meta _ m subscriber_cbk _ _ Hn2)
    as (node' & Hn' & Hm).
  cbv zeta in Hn'. unfold bind.
  match goal with
  | |- context [out (?d ?r)] => destruct (out (d r))
  end; cbn [out tree calls];
    [|intros _; right; split; [reflexivity | now exists node']].
  destruct (negb (is_None subscriber_cbk)); [|discriminate].
  match goal with
  | |- context [_Topic.subscribe ?h ?c ?s ?f ?t] =>
      destruct (out (_Topic.subscribe h c s f t)) eqn:O
  end; [discriminate|].
  apply Topic_subscribe_raises in O as [-> _]. intros _.
  right; split; [reflexivity | now exists node'].
Qed.

End FailureCases.

(** C3 (amended): a public operation that raises before it resolves a path
    with auto-creation leaves the tree as it was and calls nobody: [get] on
    a path that does not resolve, [publish] and [meta] with an empty topic,
    [create] on an existing topic.  [subscribe] raises, for a callback
    that is not callable, after the nodes of the topic were auto-created:
    the tree is the one path resolution leaves, nobody is registered or
    called.  [create] on a new topic raises after the node was created and
    the metadata stored. *)
Theorem failure_leaves_tree
        (prefix : string) (o : op) (root : Topic) (e : exn) :
  out (exec prefix o root) = Raise e ->
  let r := exec prefix o root in
  match o with
  | Subscribe topic cbk _ _ =>
      callable cbk = false
      /\ tree r = tree (PubSub._topic_find topic true root)
      /\ calls r = []
  | Create topic m _ _ _ =>
      (exists node, node_at root (PubSub.parts_of topic) = Some node)
      /\ tree r = root /\ calls r = []
      \/
      node_at root (PubSub.parts_of topic) = None
      /\ exists node,
          node_at (tree r) (PubSub.parts_of topic) = Some node
          /\ meta node = meta_value m
  | _ => tree r = root /\ calls r = []
  end.
Proof.
  intros H r. subst r.
  destruct o as [topic value retain src | topic m | topic
                 | topic cbk skip fwd | topic cbk | topic m cbk skip fwd];
    cbn [exec] in *;
    try (apply bind_ret_out in H; rewrite bind_ret_tree, bind_ret_calls).
  - now rewrite (publish_raises _ _ _ _ _ _ _ H).
  - now rewrite (meta_raises _ _ _ _ _ H).
  - now rewrite (get_raises _ _ _ H).
  - apply subscribe_raises in H as [Hc ->]. now cbn.
  - destruct (unsubscribe_succeeds topic cbk root) as [a Ha]. congruence.
  - now apply create_raises in H.
Qed.

Lemma failure_leaves_tree_witness :
  out (exec "" (Subscribe "a" (VInt 3) VNone VNone) Scenario.fresh)
  = Raise ValueError
  /\ callable (VInt 3) = false
  /\ tree (exec "" (Subscribe "a" (VInt 3) VNone VNone) Scenario.fresh)
     = tree (PubSub._topic_find "a" true Scenario.fresh)
  /\ calls (exec "" (Subscribe "a" (VInt 3) VNone VNone) Scenario.fresh) = [].
Proof.
  split; [reflexivity|].
  exact (failure_leaves_tree "" (Subscribe "a" (VInt 3) VNone VNone)
                             Scenario.fresh ValueError eq_refl).
Defined.

(** ** The metadata read (C1) *)

(** C1 (the code at the failing inputs): with the empty prefix, after
    [meta('foo', u32)] the node 'foo' carries the metadata, yet
    [publish('foo$', None)] calls nobody, the forward subscriber at the root
    included; and on a node without metadata that retains the value 5 the
    same request forwards [('foo$', 5)], the retained value. *)
Theorem metadata_read_emits_value :
  (exists node,
      node_at Scenario.with_meta ["foo"] = Some node
      /\ meta node = Scenario.u32)
  /\ PubSub.publish "" "foo$" VNone VNone VNone Scenario.with_meta
     = mkRun (Ok tt) Scenario.with_meta []
  /\ (exists node,
         node_at Scenario.with_value ["foo"] = Some node
         /\ meta node = VNone)
  /\ PubSub.publish "" "foo$" VNone VNone VNone Scenario.with_value
     = mkRun (Ok tt) Scenario.with_value
             [mkCall Scenario.cbk1 [VStr "foo$"; VInt 5; VBool true]
                     Scenario.with_value].
Proof.
  split; [eexists; split; reflexivity|]. split; [reflexivity|].
  split; [eexists; split; reflexivity|]. reflexivity.
Qed.

(** ** Subscribing twice (C2) *)

(** C2 (the code at the failing input): [subscribe] appends the pair
    [(cbk, forward)] for every callable, registered or not; after two
    subscriptions of one callback on 'a' the node lists it twice and one
    publish on 'a' calls it twice. *)
Theorem subscribe_appends_again :
  (forall topic id skip_retained forward root,
      exists node,
        node_at (tree (PubSub._topic_find topic true root))
                (PubSub.parts_of topic) = Some node
        /\ node_at (tree (PubSub.subscribe topic (VFn id) skip_retained
                                           forward root))
                   (PubSub.parts_of topic)
           = Some (set_subscribers
                     (_subscribers node ++ [(VFn id, forward)]) node))
  /\ (exists node,
         node_at Scenario.subscribed_twice ["a"] = Some node
         /\ _subscribers node
            = [(Scenario.cbk1, VNone); (Scenario.cbk1, VNone)])
  /\ map c_cbk (calls (PubSub.publish "" "a" (VInt 1) VNone VNone
                                      Scenario.subscribed_twice))
     = [Scenario.cbk1; Scenario.cbk1].
Proof.
  split; [|split; [eexists; split; reflexivity | reflexivity]].
  intros topic id skip fwd root.
  destruct (topic_find_create topic root) as (root1 & node & E & Hn).
  exists node. rewrite E. split; [exact Hn|].
  unfold PubSub.subscribe. rewrite (bind_run _ _ _ _ _ _ E).
  cbn [tree PubSub.on_node]. unfold _Topic.subscribe. cbn [callable negb].
  rewrite (bind_run _ _ _ (Ok (Some node)) root1 []);
    [|unfold read; now rewrite Hn].
  cbn [tree]. rewrite callable_not_in_items by reflexivity. cbn [negb].
  rewrite (bind_run _ _ _ (Ok tt) _ [] eq_refl). cbn [tree].
  destruct (negb (truthy skip)); cbn [tree invoke ret];
    now rewrite (node_at_update_at _ _ _ _ Hn).
Qed.

(** ** The namespace test (C10) *)



(** ** Topics are named by their path *)

Section Naming.
Implicit Types (t root : Topic) (h parts sofar : list string).

Lemma well_named_inv sofar t :
  well_named sofar t = true ->
  _topic t = PyStr.join sofar
  /\ forall part child,
      In (part, child) (children t) ->
      well_named (sofar ++ [part]) child = true.
Proof.
  destruct t as [name v m ch subs]. cbn [well_named _topic children].
  intros H. apply andb_true_iff in H as [Hn Hc].
  apply String.eqb_eq in Hn. split; [exact Hn|].
  rewrite forallb_forall in Hc. intros part child Hin.
  apply (Hc (part, child) Hin).
Qed.

Lemma well_named_intro sofar t :
  _topic t = PyStr.join sofar ->
  (forall part child,
      In (part, child) (children t) ->
      well_named (sofar ++ [part]) child = true) ->
  well_named sofar t = true.
Proof.
  destruct t as [name v m ch subs]. cbn [well_named _topic children].
  intros -> Hc. rewrite String.eqb_refl. apply forallb_forall.
  intros [part child] Hin. now apply Hc.
Qed.

(** The node a handle resolves to is named by the handle. *)
Lemma well_named_node_at h :
  forall sofar t node,
    well_named sofar t = true -> node_at t h = Some node ->
    well_named (sofar ++ h) node = true.
Proof.
  induction h as [|part rest IH]; intros sofar t node W; simpl.
  - intros [= <-]. now rewrite app_nil_r.
  - destruct (dict_get (children t) part) as [child|] eqn:G; [|discriminate].
    intros Hn. apply well_named_inv in W as [_ Hc].
    replace (sofar ++ part :: rest) with ((sofar ++ [part]) ++ rest)
      by now rewrite <- app_assoc.
    apply (IH _ child); [|exact Hn]. apply Hc. now apply dict_get_In.
Qed.

Lemma well_named_set_child sofar t part child :
  well_named sofar t = true ->
  well_named (sofar ++ [part]) child = true ->
  well_named sofar (set_children (dict_set (children t) part child) t) = true.
Proof.
  intros W Wc. apply well_named_inv in W as [Hn Hc].
  apply well_named_intro; [now destruct t|].
  intros part' child' Hin. destruct t as [name v m ch subs]; simpl in *.
  apply dict_set_In in Hin as [[= -> ->]|Hin]; auto.
Qed.

(** Path resolution keeps the invariant: a new node is named by the
    parts joined so far. *)
Lemma well_named_find_walk create parts :
  forall t sofar t',
    well_named sofar t = true ->
    PubSub.find_walk create t sofar parts = Some t' ->
    well_named sofar t' = true.
Proof.
  induction parts as [|part rest IH]; intros t sofar t' W; simpl.
  - now intros [= <-].
  - destruct (dict_get (children t) part) as [child|] eqn:G.
    + destruct (PubSub.find_walk create child _ rest) as [c'|] eqn:E;
        [|discriminate].
      intros [= <-]. apply well_named_set_child; [exact W|].
      apply (IH _ _ _ (proj2 (well_named_inv _ _ W) _ _ (dict_get_In _ _ _ G))
                E).
    + destruct create; [|discriminate].
      destruct (PubSub.find_walk true _ _ rest) as [c'|] eqn:E;
        [|discriminate].
      intros [= <-]. apply well_named_set_child; [exact W|].
      apply (IH _ _ _ (well_named_intro _ (Topic_init _) eq_refl
                                        (fun _ _ (H : In _ []) =>
                                           match H with end)) E).
Qed.

(** So does a mutation that keeps the topic string and the children of
    the node. *)
Lemma well_named_update_at f h :
  (forall n, _topic (f n) = _topic n /\ children (f n) = children n) ->
  forall sofar t,
    well_named sofar t = true -> well_named sofar (update_at f h t) = true.
Proof.
  intros Hf. induction h as [|part rest IH]; intros sofar t W; simpl.
  - destruct (Hf t) as [Hn Hc]. apply well_named_inv in W as [Hn' Hc'].
    apply well_named_intro; [congruence|]. now rewrite Hc.
  - destruct (dict_get (children t) part) as [child|] eqn:G; [|exact W].
    apply well_named_set_child; [exact W|]. apply IH.
    apply (proj2 (well_named_inv _ _ W) _ _ (dict_get_In _ _ _ G)).
Qed.

End Naming.

Section KeepsNames.

Lemma keeps_bind {A B} (m : M A) (f : A -> M B) :
  keeps_names m -> (forall a, keeps_names (f a)) -> keeps_names (bind m f).
Proof.
  intros Hm Hf root W. unfold bind. specialize (Hm root W).
  destruct (out (m root)); cbn [tree]; [now apply Hf | exact Hm].
Qed.

Lemma keeps_same {A} (m : M A) :
  (forall root, tree (m root) = root) -> keeps_names m.
Proof. intros H root W. now rewrite H. Qed.

Ltac same := apply keeps_same; intros; reflexivity.

Lemma keeps_write f h :
  (forall n, _topic (f n) = _topic n /\ children (f n) = children n) ->
  keeps_names (write (update_at f h)).
Proof. intros Hf root W. now apply well_named_update_at. Qed.

Lemma keeps_topic_find topic create :
  keeps_names (PubSub._topic_find topic create).
Proof.
  intros root W. unfold PubSub._topic_find.
  destruct (PubSub.find_walk create root [] _) as [root'|] eqn:E;
    cbn [tree]; [|exact W].
  now apply (well_named_find_walk _ _ _ _ _ W E).
Qed.

Lemma keeps_Topic_publish h x retain src_cbk :
  keeps_names (_Topic.publish h x retain src_cbk).
Proof.
  intros root W. unfold _Topic.publish.
  destruct (node_at root h); [|exact W].
  destruct (truthy retain); [destruct (py_eq _ x)|]; try exact W;
    unfold bind, write, invoke; cbn [out tree];
    now apply well_named_update_at.
Qed.

Lemma keeps_Topic_subscribe h cbk skip_retained forward :
  keeps_names (_Topic.subscribe h cbk skip_retained forward).
Proof.
  unfold _Topic.subscribe. destruct (negb (callable cbk));
    [same|].
  apply keeps_bind; [same|]. intros [self|];
    [|same].
  apply keeps_bind.
  - destruct (negb (py_in cbk _));
      [now apply keeps_write | same].
  - intros _. destruct (negb (truthy skip_retained));
      [same | same].
Qed.

Lemma keeps_on_node {A} (t : option handle) (k : handle -> M A) none :
  (forall h, keeps_names (k h)) -> keeps_names none ->
  keeps_names (PubSub.on_node t k none).
Proof. intros Hk Hnone. destruct t; cbn [PubSub.on_node]; auto. Qed.

Lemma keeps_publish prefix topic value retain src_cbk :
  keeps_names (PubSub.publish prefix topic value retain src_cbk).
Proof.
  unfold PubSub.publish.
  destruct (String.length topic =? 0)%nat;
    [same|].
  destruct (topic =? "$").
  { apply keeps_bind; [apply keeps_topic_find|]. intros t.
    apply keeps_bind; [|intros _; same].
    destruct t; [same | same]. }
  destruct (PyStr.endswith topic "/$").
  { destruct (PyStr.startswith topic prefix).
    - apply keeps_bind; [apply keeps_topic_find|]. intros t.
      destruct t; [same | same].
    - apply keeps_bind; [same|]. intros t.
      same. }
  destruct (PyStr.last_is topic "$").
  { apply keeps_bind; [apply keeps_topic_find|]. intros t.
    apply keeps_on_node; [|same].
    intros h. destruct (PyStr.startswith topic prefix); [|same].
    destruct (is_None value).
    - apply keeps_bind; [same|]. intros tv.
      destruct (negb (is_None tv));
        [same | same].
    - apply keeps_bind; [now apply keeps_write|]. intros _.
      same. }
  destruct (PyStr.last_is topic "?");
    [same|].
  apply keeps_bind; [apply keeps_topic_find|]. intros t.
  apply keeps_on_node; [|same]. intros h.
  apply keeps_Topic_publish.
Qed.

Lemma keeps_exec prefix o : keeps_names (exec prefix o).
Proof.
  destruct o as [topic value retain src | topic m | topic
                 | topic cbk skip fwd | topic cbk | topic m cbk skip fwd];
    cbn [exec];
    try (apply keeps_bind;
         [|intros _; same]).
  - apply keeps_publish.
  - unfold PubSub.meta. destruct (PyStr.last_char topic);
      [apply keeps_publish
      |same].
  - unfold PubSub.get. apply keeps_bind; [apply keeps_topic_find|].
    intros [h|]; [same
                 |same].
  - unfold PubSub.subscribe. apply keeps_bind; [apply keeps_topic_find|].
    intros t. apply keeps_on_node;
      [|same].
    intros h. apply keeps_Topic_subscribe.
  - unfold PubSub.unsubscribe. apply keeps_bind; [apply keeps_topic_find|].
    intros t. apply keeps_on_node;
      [|same].
    intros h. now apply keeps_write.
  - unfold PubSub.create. apply keeps_bind; [apply keeps_topic_find|].
    intros [h|]; [same|].
    apply keeps_bind; [apply keeps_topic_find|]. intros t.
    apply keeps_on_node; [|same].
    intros h. apply keeps_bind; [now apply keeps_write|]. intros _.
    apply keeps_bind.
    + destruct m as [d|]; [|same].
      destruct (dict_has d "default");
        [|same].
      destruct (_as_bool _) as [retain|e];
        [|same].
      destruct (dict_get d "default");
        [apply keeps_Topic_publish
        |same].
    + intros _. destruct (negb (is_None cbk));
        [apply keeps_Topic_subscribe
        |same].
Qed.

(** Every tree an engine can be in is well named. *)
Lemma reachable_well_named prefix root :
  reachable prefix root -> well_named [] root = true.
Proof.
  induction 1 as [|root o _ IH]; [reflexivity|]. now apply keeps_exec.
Qed.

End KeepsNames.

(** ** The metadata broadcast (C8) *)

Section Broadcast.
Implicit Types (t root : Topic) (h rest : list string).

Lemma update_at_missing f h :
  forall t, node_at t h = None -> update_at f h t = t.
Proof.
  induction h as [|part rest IH]; intros t; simpl; [discriminate|].
  destruct (dict_get (children t) part) as [child|] eqn:G; [|reflexivity].
  intros Hn. rewrite (IH _ Hn).
  now rewrite (dict_set_get_id _ _ _ G), set_children_same.
Qed.

(** The tree [subscribe] leaves: the pair is appended on the node. *)
Lemma subscribe_tree topic id skip_retained forward root root1 :
  PubSub._topic_find topic true root
  = mkRun (Ok (Some (PubSub.parts_of topic))) root1 [] ->
  tree (PubSub.subscribe topic (VFn id) skip_retained forward root)
  = update_at (fun t => set_subscribers
                          (_subscribers t ++ [(VFn id, forward)]) t)
              (PubSub.parts_of topic) root1.
Proof.
  intros E. unfold PubSub.subscribe. rewrite (bind_run _ _ _ _ _ _ E).
  cbn [tree PubSub.on_node]. unfold _Topic.subscribe. cbn [callable negb].
  unfold bind at 1, read at 1. cbn [out tree calls].
  destruct (node_at root1 (PubSub.parts_of topic)) as [self|] eqn:Hn.
  - rewrite callable_not_in_items by reflexivity. cbn [negb].
    rewrite (bind_run _ _ _ (Ok tt) _ [] eq_refl). cbn [tree].
    now destruct (negb (truthy skip_retained)).
  - cbn [tree ret]. now rewrite update_at_missing.
Qed.

Lemma prefix_of_a_b prefix :
  PyStr.startswith "a/b" prefix = true ->
  prefix = "" \/ prefix = "a" \/ prefix = "a/" \/ prefix = "a/b".
Proof.
  unfold PyStr.startswith.
  destruct prefix as [|c1 [|c2 [|c3 [|c4 s]]]]; simpl; auto;
    repeat match goal with
           | |- context [ascii_dec ?x ?y] => destruct (ascii_dec x y)
           end; subst; auto; discriminate.
Qed.

Lemma node_at_app h :
  forall rest t node,
    node_at t (h ++ rest) = Some node ->
    exists nh, node_at t h = Some nh /\ node_at nh rest = Some node.
Proof.
  induction h as [|part h' IH]; intros rest t node; simpl.
  - eauto.
  - destruct (dict_get (children t) part) as [child|]; [|discriminate].
    apply IH.
Qed.

(** The nodes on the way to [h ++ rest] are those above the node of [h],
    then those from that node on. *)
Lemma path_nodes_split h :
  forall t nh,
    node_at t h = Some nh ->
    exists above,
      path_nodes t h = above ++ [nh]
      /\ forall rest, path_nodes t (h ++ rest) = above ++ path_nodes nh rest.
Proof.
  induction h as [|part h' IH]; intros t nh; simpl.
  - intros [= <-]. exists []. split; [reflexivity|].
    intros rest. now destruct rest.
  - destruct (dict_get (children t) part) as [child|]; [|discriminate].
    intros Hn. destruct (IH _ _ Hn) as (above & E & Hrest).
    exists (t :: above). rewrite E. split; [reflexivity|].
    intros rest. now rewrite Hrest.
Qed.

Lemma forward_calls_app topic value retain src_cbk v1 v2 seen :
  _Topic.forward_calls topic value retain src_cbk (v1 ++ v2) seen
  = _Topic.forward_calls topic value retain src_cbk v1 seen
    ++ _Topic.forward_calls topic value retain src_cbk v2 seen.
Proof. unfold _Topic.forward_calls. apply flat_map_app. Qed.

(** A forward walk that ends on a node whose last subscriber is a
    forward-flagged callable ends with the call of that subscriber. *)
Lemma forward_calls_last topic value retain visited t subs id seen :
  _subscribers t = subs ++ [(VFn id, VBool true)] ->
  exists before,
    _Topic.forward_calls topic value retain VNone (visited ++ [t]) seen
    = before ++ [mkCall (VFn id) [VStr topic; value; retain] seen].
Proof.
  intros Hs. rewrite forward_calls_app.
  unfold _Topic.forward_calls at 2. cbn [flat_map]. rewrite Hs.
  rewrite flat_map_app. cbn. rewrite app_nil_r, app_assoc. eauto.
Qed.

(** The recursion of [_meta_send_all] reaches every node below its
    starting node: the metadata of a node that carries some is forwarded
    along its whole parent chain. *)
Lemma meta_walk_emits rest :
  forall t parents node src_cbk seen,
    node_at t rest = Some node ->
    is_None (meta node) = false ->
    exists l1 l2,
      PubSub.meta_walk parents t src_cbk seen
      = l1 ++ _Topic.forward_calls (_topic node ++ "$")%string (meta node)
                                 (VBool false) src_cbk
                                 (rev (path_nodes t rest) ++ parents) seen
           ++ l2.
Proof.
  induction rest as [|part rest' IH]; intros t parents node src seen.
  - intros [= <-] Hm. destruct t as [name v m ch subs].
    cbn [PubSub.meta_walk meta _topic children path_nodes rev app] in *.
    rewrite Hm. cbn [negb]. exists []. eexists. reflexivity.
  - cbn [node_at path_nodes].
    destruct (dict_get (children t) part) as [child|] eqn:G; [|discriminate].
    intros Hn Hm.
    destruct (IH child (t :: parents) node src seen Hn Hm) as (l1 & l2 & E).
    destruct (in_split _ _ (dict_get_In _ _ _ G)) as (c1 & c2 & Hc).
    destruct t as [name v m ch subs].
    cbn [PubSub.meta_walk meta _topic children] in *. subst ch.
    rewrite flat_map_app. cbn [flat_map]. rewrite E.
    cbn [rev]. rewrite <- (app_assoc (rev _) [_] parents). cbn [app].
    match goal with
    | |- exists _ _, ?own ++ ?left ++ _ ++ ?right = _ =>
        exists (own ++ left ++ l1), (l2 ++ right)
    end.
    now rewrite <- !app_assoc.
Qed.

End Broadcast.

Section BroadcastRun.
Implicit Types (t root : Topic) (h rest : list string).

(** The tree a per-topic metadata write in the own namespace leaves. *)
Lemma publish_meta_write prefix topic value retain src_cbk root root1 :
  topic <> "$" -> PyStr.endswith topic "/$" = false ->
  PyStr.last_is topic "$" = true -> is_None value = false ->
  PyStr.startswith topic prefix = true ->
  PubSub._topic_find (PyStr.drop_last topic) true root
  = mkRun (Ok (Some (PubSub.parts_of (PyStr.drop_last topic)))) root1 [] ->
  tree (PubSub.publish prefix topic value retain src_cbk root)
  = update_at (set_meta value) (PubSub.parts_of (PyStr.drop_last topic))
              root1.
Proof.
  intros Hne He Hl Hv Hp E. unfold PubSub.publish.
  rewrite (last_is_length _ _ Hl), He, Hl, Hp.
  destruct (String.eqb_spec topic "$") as [->|_]; [congruence|].
  rewrite (bind_run _ _ _ _ _ _ E). cbn [out tree calls PubSub.on_node app].
  rewrite Hv. now rewrite (bind_run _ _ _ (Ok tt) _ [] eq_refl).
Qed.

(** The calls of the global metadata broadcast, from the node [h] the
    prefix resolves to. *)
Lemma publish_broadcast_calls prefix retain src_cbk root node :
  node_at root (PubSub.parts_of prefix) = Some node ->
  PubSub.publish prefix "$" VNone retain src_cbk root
  = mkRun (Ok tt) root
          (match chain root (PubSub.parts_of prefix) with
           | n :: parents => PubSub.meta_walk parents n src_cbk root
           | [] => []
           end
           ++ _Topic.forward_calls "$" VNone retain src_cbk [root] root).
Proof.
  intros Hn. unfold PubSub.publish.
  change (String.length "$" =? 0)%nat with false. cbv iota.
  rewrite String.eqb_refl.
  rewrite (bind_run _ _ _ _ _ _ (topic_find_existing _ true _ _ Hn)).
  cbn [out tree calls app PubSub._meta_send_all].
  rewrite (bind_run _ _ _ (Ok tt) _ _ eq_refl). reflexivity.
Qed.

End BroadcastRun.

(** C8: on an engine whose prefix is a string prefix of 'a/b', in any tree
    the engine can be in: after [meta('a/b', M)] and the subscription of a
    callback at the root with [forward=True], [publish('$', None)] calls
    that callback with [('a/b$', M)] and, as its last call, with the
    literal [('$', None)]; on a new engine these are the only two calls. *)
Theorem meta_then_broadcast
        (prefix : string) (M : pyval) (id : nat) (skip_retained : pyval)
        (root : Topic) :
  reachable prefix root ->
  PyStr.startswith "a/b" prefix = true ->
  is_None M = false ->
  let rootA := tree (PubSub.meta prefix "a/b" M root) in
  let rootB := tree (PubSub.subscribe "" (VFn id) skip_retained (VBool true)
                                      rootA) in
  let r := PubSub.publish prefix "$" VNone VNone VNone rootB in
  let delivered := mkCall (VFn id) [VStr "a/b$"; M; VBool false] rootB in
  let broadcast := mkCall (VFn id) [VStr "$"; VNone; VNone] rootB in
  out r = Ok tt
  /\ (exists before between,
         calls r = before ++ delivered :: between ++ [broadcast])
  /\ (root = _root (PubSub.__init__ (Some prefix)) ->
      calls r = [delivered; broadcast]).
Proof.
  intros Hreach Hp HM rootA rootB r delivered broadcast.
  (* the tree after meta *)
  assert (WA : well_named [] rootA = true).
  { apply (reachable_well_named prefix).
    replace rootA with (tree (exec prefix (Meta "a/b" M) root))
      by apply bind_ret_tree.
    now constructor. }
  destruct (topic_find_create "a/b" root) as (root1 & node1 & E1 & Hn1).
  change (PubSub.parts_of "a/b") with ["a"; "b"] in *.
  assert (EA : rootA = update_at (set_meta M) ["a"; "b"] root1).
  { subst rootA. change (PubSub.meta prefix "a/b" M root)
      with (PubSub.publish prefix "a/b$" M VNone VNone root).
    apply publish_meta_write; try reflexivity; try discriminate; try assumption.
    destruct (prefix_of_a_b _ Hp) as [-> | [-> | [-> | ->]]]; reflexivity. }
  assert (HnA : node_at rootA ["a"; "b"] = Some (set_meta M node1))
    by (rewrite EA; now apply node_at_update_at).
  pose proof (well_named_node_at _ _ _ _ WA HnA) as WnA.
  apply well_named_inv in WnA as [NameA _].
  change (PyStr.join ([] ++ ["a"; "b"])) with "a/b" in NameA.
  (* the tree after subscribe *)
  assert (EB : rootB = set_subscribers
                         (_subscribers rootA ++ [(VFn id, VBool true)]) rootA).
  { subst rootB. now rewrite (subscribe_tree "" id _ _ rootA rootA). }
  assert (HnB : node_at rootB ["a"; "b"] = Some (set_meta M node1))
    by (rewrite EB; exact HnA).
  assert (SubsB : _subscribers rootB
                  = _subscribers rootA ++ [(VFn id, VBool true)])
    by now rewrite EB.
  (* the broadcast *)
  assert (Hh : exists h rest,
             PubSub.parts_of prefix = h /\ h ++ rest = ["a"; "b"]).
  { destruct (prefix_of_a_b _ Hp) as [-> | [-> | [-> | ->]]].
    - now exists [], ["a"; "b"].
    - now exists ["a"], ["b"].
    - now exists ["a"], ["b"].
    - now exists ["a"; "b"], []. }
  destruct Hh as (h & rest & Eh & Hab). rewrite <- Hab in HnB.
  destruct (node_at_app _ _ _ _ HnB) as (nh & Hnh & Hrest).
  destruct (path_nodes_split _ _ _ Hnh) as (above & Eabove & Hsplit).
  assert (Er : r = mkRun (Ok tt) rootB
                         (PubSub.meta_walk (rev above) nh VNone rootB
                          ++ _Topic.forward_calls "$" VNone VNone VNone
                                                  [rootB] rootB)).
  { subst r. rewrite (publish_broadcast_calls _ _ _ _ nh) by now rewrite Eh.
    rewrite Eh. unfold chain. rewrite Eabove, rev_app_distr. reflexivity. }
  split; [now rewrite Er|]. split.
  - rewrite Er. cbn [calls].
    destruct (meta_walk_emits rest nh (rev above) _ VNone rootB Hrest HM)
      as (l1 & l2 & ->).
    cbn [meta _topic set_meta] in *. rewrite NameA.
    rewrite <- rev_app_distr, <- Hsplit.
    assert (Hroot : exists below, path_nodes rootB (h ++ rest) = rootB :: below)
      by (destruct (h ++ rest); simpl; eauto).
    destruct Hroot as [below ->]. cbn [rev].
    change ("a/b" ++ "$")%string with "a/b$".
    destruct (forward_calls_last "a/b$" M (VBool false) (rev below) rootB
                                 _ id rootB SubsB) as (b1 & ->).
    destruct (forward_calls_last "$" VNone VNone [] rootB _ id rootB SubsB)
      as (b2 & E2).
    cbn [app] in E2. rewrite E2.
    exists (l1 ++ b1), (l2 ++ b2). now rewrite <- !app_assoc.
  - intros ->. subst r delivered broadcast rootB rootA.
    destruct M; try discriminate;
      destruct (prefix_of_a_b _ Hp) as [-> | [-> | [-> | ->]]];
      rewrite (subscribe_tree "" id _ _ _ _ eq_refl); reflexivity.
Qed.

Lemma meta_then_broadcast_witness :
  reachable "a" Scenario.engine_a
  /\ PyStr.startswith "a/b" "a" = true
  /\ is_None Scenario.u32 = false
  /\ out Scenario.a_broadcast = Ok tt
  /\ (exists before between,
         calls Scenario.a_broadcast
         = before
             ++ mkCall Scenario.cbk1 [VStr "a/b$"; Scenario.u32; VBool false]
                       Scenario.a_subscribed
             :: between
             ++ [mkCall Scenario.cbk1 [VStr "$"; VNone; VNone]
                        Scenario.a_subscribed])
  /\ (Scenario.engine_a = _root (PubSub.__init__ (Some "a")) ->
      calls Scenario.a_broadcast
      = [mkCall Scenario.cbk1 [VStr "a/b$"; Scenario.u32; VBool false]
                Scenario.a_subscribed;
         mkCall Scenario.cbk1 [VStr "$"; VNone; VNone] Scenario.a_subscribed]).
Proof.
  assert (H : reachable "a" Scenario.engine_a) by (repeat constructor).
  split; [exact H|]. split; [reflexivity|]. split; [reflexivity|].
  exact (meta_then_broadcast "a" Scenario.u32 1 VNone Scenario.engine_a
                             H eq_refl eq_refl).
Defined.

(** ** How the tree changes *)

Section DictOther.
Context {A : Type}.
Implicit Types (d : list (string * A)) (k : string) (v : A).

Lemma dict_get_set_other d k k' v :
  k' <> k -> dict_get (dict_set d k v) k' = dict_get d k'.
Proof.
  intros Hne. induction d as [|[k0 v0] d IH]; simpl.
  - destruct (String.eqb_spec k k'); [congruence | reflexivity].
  - destruct (String.eqb_spec k0 k) as [->|H0]; simpl.
    + destruct (String.eqb_spec k k'); [congruence | reflexivity].
    + destruct (k0 =? k'); [reflexivity | exact IH].
Qed.

Lemma dict_get_None_keys d k :
  dict_get d k = None -> ~ In k (map fst d).
Proof.
  induction d as [|[k0 v0] d IH]; simpl; [tauto|].
  destruct (String.eqb_spec k0 k) as [->|H0]; [discriminate|].
  intros H [E|Hin]; [congruence | now apply IH].
Qed.

Lemma dict_set_keys d k v :
  map fst (dict_set d k v)
  = match dict_get d k with
    | Some _ => map fst d
    | None => map fst d ++ [k]
    end.
Proof.
  induction d as [|[k0 v0] d IH]; simpl; [reflexivity|].
  destruct (String.eqb_spec k0 k) as [->|H0]; simpl; [reflexivity|].
  rewrite IH. now destruct (dict_get d k).
Qed.

End DictOther.

Section StepFacts.
Context {X : Type} (proj : Topic -> X).
Hypothesis proj_children : forall ch n, proj (set_children ch n) = proj n.

(** Path resolution keeps every node that exists, and its fields. *)
Lemma find_walk_keeps create parts :
  forall t sofar t' h n,
    PubSub.find_walk create t sofar parts = Some t' ->
    node_at t h = Some n ->
    exists n', node_at t' h = Some n' /\ proj n' = proj n.
Proof.
  induction parts as [|part rest IH]; intros t sofar t' h n; simpl.
  - intros [= <-] Hn. eauto.
  - assert (K : forall child child',
               (dict_get (children t) part = Some child
                \/ dict_get (children t) part = None) ->
               PubSub.find_walk create child (sofar ++ [part]) rest
               = Some child' ->
               node_at t h = Some n ->
               exists n',
                 node_at (set_children (dict_set (children t) part child') t)
                         h = Some n' /\ proj n' = proj n).
    { intros child child' G E Hn. destruct h as [|q h'].
      - injection Hn as <-. eexists. split; [reflexivity|].
        apply proj_children.
      - simpl in Hn |- *.
        destruct (dict_get (children t) q) as [cq|] eqn:Gq; [|discriminate].
        destruct (String.eqb_spec q part) as [->|Hne].
        + rewrite dict_get_set_same.
          destruct G as [G|G]; rewrite G in Gq; [|discriminate].
          injection Gq as <-. eapply IH; eauto.
        + rewrite (dict_get_set_other _ _ _ _ Hne), Gq. eauto. }
    destruct (dict_get (children t) part) as [child|] eqn:G.
    + destruct (PubSub.find_walk create child _ rest) as [c'|] eqn:E;
        [|discriminate].
      intros [= <-]. apply (K child); auto.
    + destruct create; [|discriminate].
      destruct (PubSub.find_walk true _ _ rest) as [c'|] eqn:E;
        [|discriminate].
      intros [= <-]. eapply K; eauto.
Qed.

(** A mutation of one node keeps every node that exists; it keeps the
    field [proj] of the other nodes, and of the node itself when the
    mutation keeps it. *)
Lemma update_at_keeps f h0 :
  keeps_shape f ->
  forall t h n,
    node_at t h = Some n ->
    exists n',
      node_at (update_at f h0 t) h = Some n'
      /\ ((forall m, proj (f m) = proj m) \/ h <> h0 -> proj n' = proj n).
Proof.
  intros Hf. induction h0 as [|part rest IH]; intros t h n Hn.
  - destruct (Hf t) as [_ Hc]. cbn [update_at]. destruct h as [|q h'].
    + injection Hn as <-. eexists. split; [reflexivity|].
      intros [H|H]; [apply H | congruence].
    + simpl in Hn |- *. rewrite Hc. rewrite Hn. eauto.
  - cbn [update_at].
    destruct (dict_get (children t) part) as [child|] eqn:G; [|eauto].
    destruct h as [|q h'].
    + injection Hn as <-. eexists. split; [reflexivity|].
      intros _. apply proj_children.
    + simpl in Hn |- *.
      destruct (dict_get (children t) q) as [cq|] eqn:Gq; [|discriminate].
      destruct (String.eqb_spec q part) as [->|Hne].
      * rewrite dict_get_set_same. rewrite G in Gq. injection Gq as <-.
        destruct (IH _ _ _ Hn) as (n' & Hn' & Hp). exists n'.
        split; [exact Hn'|]. intros [H|H]; apply Hp; auto.
        right. congruence.
      * rewrite (dict_get_set_other _ _ _ _ Hne), Gq. exists n.
        split; [exact Hn | reflexivity].
Qed.

(** Steps that keep [proj] keep it on every node that exists. *)
Lemma grows_keeps F root root' :
  (forall f, keeps_shape f -> F f -> forall m, proj (f m) = proj m) ->
  grows F root root' ->
  forall h n,
    node_at root h = Some n ->
    exists n', node_at root' h = Some n' /\ proj n' = proj n.
Proof.
  intros HF G. induction G as [root|root root1 root2 S _ IH]; intros h n Hn.
  - eauto.
  - assert (H1 : exists n1, node_at root1 h = Some n1 /\ proj n1 = proj n).
    { destruct S as [create parts root root' E|f h0 root Hs Hf].
      - eapply find_walk_keeps; eauto.
      - destruct (update_at_keeps f h0 Hs _ _ _ Hn) as (n' & Hn' & Hp).
        exists n'. split; [exact Hn'|]. apply Hp. left. now apply HF. }
    destruct H1 as (n1 & Hn1 & E1). destruct (IH _ _ Hn1) as (n2 & Hn2 & E2).
    exists n2. split; [exact Hn2 | congruence].
Qed.

End StepFacts.

Section Growers.
Variable F : (Topic -> Topic) -> Prop.

Lemma grows_trans root1 root2 root3 :
  grows F root1 root2 -> grows F root2 root3 -> grows F root1 root3.
Proof.
  induction 1 as [|r r1 r2 S _ IH]; [auto|].
  intros G. eapply grows_step; eauto.
Qed.

Lemma grower_bind {A B} (m : M A) (f : A -> M B) :
  grower F m -> (forall a, grower F (f a)) -> grower F (bind m f).
Proof.
  intros Hm Hf root. unfold bind. specialize (Hm root).
  destruct (out (m root)); cbn [tree]; [|exact Hm].
  eapply grows_trans; [exact Hm | apply Hf].
Qed.

Lemma grower_same {A} (m : M A) :
  (forall root, tree (m root) = root) -> grower F m.
Proof. intros H root. rewrite H. constructor. Qed.

Ltac still := apply grower_same; intros; reflexivity.

Lemma grower_topic_find topic create :
  grower F (PubSub._topic_find topic create).
Proof.
  intros root. unfold PubSub._topic_find.
  destruct (PubSub.find_walk create root [] _) as [root'|] eqn:E;
    cbn [tree]; [|constructor].
  eapply grows_step; [eapply step_find; eauto | constructor].
Qed.

Lemma grower_write f h :
  keeps_shape f -> F f -> grower F (write (update_at f h)).
Proof.
  intros Hs Hf root. cbn [write tree].
  eapply grows_step; [now apply step_update | constructor].
Qed.

Lemma keeps_shape_set_value v : keeps_shape (set_value v).
Proof. now intros n. Qed.

Lemma keeps_shape_set_meta v : keeps_shape (set_meta v).
Proof. now intros n. Qed.

Lemma keeps_shape_set_subscribers (g : Topic -> list (pyval * pyval)) :
  keeps_shape (fun t => set_subscribers (g t) t).
Proof. now intros n. Qed.

Lemma grower_on_node {A} (t : option handle) (k : handle -> M A) none :
  (forall h, grower F (k h)) -> grower F none ->
  grower F (PubSub.on_node t k none).
Proof. intros Hk Hnone. destruct t; cbn [PubSub.on_node]; auto. Qed.

Lemma grower_Topic_publish h x retain src_cbk :
  (forall v, F (set_value v)) ->
  grower F (_Topic.publish h x retain src_cbk).
Proof.
  intros HF root. unfold _Topic.publish.
  destruct (node_at root h); [|constructor].
  assert (W : forall v cs,
             grows F root (tree ((write (update_at (set_value v) h) ;;
                                  invoke cs) root))).
  { intros v cs. apply grower_bind;
      [apply grower_write; [apply keeps_shape_set_value | apply HF]|].
    intros _. still. }
  destruct (truthy retain); [destruct (py_eq _ x)|];
    [constructor | apply W | apply W].
Qed.

Lemma grower_Topic_subscribe h cbk skip_retained forward :
  F (fun t => set_subscribers (_subscribers t ++ [(cbk, forward)]) t) ->
  grower F (_Topic.subscribe h cbk skip_retained forward).
Proof.
  intros HF. unfold _Topic.subscribe. destruct (negb (callable cbk));
    [still|].
  apply grower_bind; [still|]. intros [self|]; [|still].
  apply grower_bind.
  - destruct (negb (py_in cbk _)); [|still].
    apply grower_write; [apply keeps_shape_set_subscribers | exact HF].
  - intros _. destruct (negb (truthy skip_retained)); still.
Qed.

Lemma grower_meta_send_all t src_cbk :
  grower F (PubSub._meta_send_all t src_cbk).
Proof. destruct t; still. Qed.

(** [publish] changes the tree by path resolution and by one store: of
    the value on a value topic, of the metadata on a metadata topic. *)
Lemma grower_publish prefix topic value retain src_cbk :
  (PyStr.last_is topic "$" = false -> forall v, F (set_value v)) ->
  (PyStr.last_is topic "$" = true -> forall v, F (set_meta v)) ->
  grower F (PubSub.publish prefix topic value retain src_cbk).
Proof.
  intros Hv Hm. unfold PubSub.publish.
  destruct (String.length topic =? 0)%nat; [still|].
  destruct (topic =? "$").
  { apply grower_bind; [apply grower_topic_find|]. intros t.
    apply grower_bind; [apply grower_meta_send_all | intros _; still]. }
  destruct (PyStr.endswith topic "/$").
  { destruct (PyStr.startswith topic prefix).
    - apply grower_bind; [apply grower_topic_find|]. intros t.
      apply grower_meta_send_all.
    - apply grower_bind; [still | intros t; still]. }
  destruct (PyStr.last_is topic "$") eqn:L.
  { apply grower_bind; [apply grower_topic_find|]. intros t.
    apply grower_on_node; [|still]. intros h.
    destruct (PyStr.startswith topic prefix); [|still].
    destruct (is_None value).
    - apply grower_bind; [still|]. intros tv.
      destruct (negb (is_None tv)); still.
    - apply grower_bind; [|intros _; still].
      apply grower_write; [apply keeps_shape_set_meta | now apply Hm]. }
  destruct (PyStr.last_is topic "?"); [still|].
  apply grower_bind; [apply grower_topic_find|]. intros t.
  apply grower_on_node; [|still]. intros h.
  apply grower_Topic_publish. now apply Hv.
Qed.

Lemma grower_create_body t meta subscriber_cbk skip_retained forward :
  (forall f, F f) ->
  grower F
    (write (update_at
              (set_meta (match meta with
                         | Some d => VDict d
                         | None => VNone
                         end)) t) ;;
     (match meta with
      | Some d =>
          if dict_has d "default" then
            match _as_bool (match dict_get d "retain" with
                            | Some r => r
                            | None => VInt 0
                            end) with
            | Ok retain =>
                match dict_get d "default" with
                | Some x => _Topic.publish t x (VBool retain) subscriber_cbk
                | None => ret tt
                end
            | Raise e => raise e
            end
          else ret tt
      | None => ret tt
      end) ;;
     if negb (is_None subscriber_cbk) then
       _Topic.subscribe t subscriber_cbk skip_retained forward
     else ret tt).
Proof.
  intros HF. apply grower_bind;
    [apply grower_write; [apply keeps_shape_set_meta | apply HF]|].
  intros _. apply grower_bind.
  - destruct meta as [d|]; [|still].
    destruct (dict_has d "default"); [|still].
    destruct (_as_bool _) as [retain|e]; [|still].
    destruct (dict_get d "default"); [|still].
    apply grower_Topic_publish. intros v. apply HF.
  - intros _. destruct (negb (is_None subscriber_cbk)); [|still].
    apply grower_Topic_subscribe. apply HF.
Qed.

(** Every public operation changes the tree by such steps only. *)
Lemma grower_exec prefix o : (forall f, F f) -> grower F (exec prefix o).
Proof.
  intros HF.
  destruct o as [topic value retain src | topic m | topic
                 | topic cbk skip fwd | topic cbk | topic m cbk skip fwd];
    cbn [exec]; try (apply grower_bind; [|intros _; still]).
  - apply grower_publish; intros _ v; apply HF.
  - unfold PubSub.meta. destruct (PyStr.last_char topic); [|still].
    apply grower_publish; intros _ v; apply HF.
  - unfold PubSub.get. apply grower_bind; [apply grower_topic_find|].
    intros [h|]; still.
  - unfold PubSub.subscribe. apply grower_bind; [apply grower_topic_find|].
    intros t. apply grower_on_node; [|still]. intros h.
    apply grower_Topic_subscribe. apply HF.
  - unfold PubSub.unsubscribe. apply grower_bind; [apply grower_topic_find|].
    intros t. apply grower_on_node; [|still]. intros h.
    apply grower_write; [apply keeps_shape_set_subscribers | apply HF].
  - unfold PubSub.create. apply grower_bind; [apply grower_topic_find|].
    intros [h|]; [still|].
    apply grower_bind; [apply grower_topic_find|]. intros t.
    apply grower_on_node; [|still]. intros h.
    now apply grower_create_body.
Qed.

End Growers.

(** ** Nodes are kept *)

(** X1: no public operation removes or renames a node: a topic that
    resolves before a call resolves after it, whether the call returned or
    raised, to a node with the same topic string, and [get] on it
    returns. *)
Theorem nodes_are_never_removed
        (prefix : string) (o : op) (root : Topic) (T : string) (n : Topic) :
  node_at root (PubSub.parts_of T) = Some n ->
  let r := exec prefix o root in
  exists n',
    node_at (tree r) (PubSub.parts_of T) = Some n'
    /\ _topic n' = _topic n
    /\ PubSub.get T (tree r) = mkRun (Ok (_value n')) (tree r) [].
Proof.
  intros Hn r.
  destruct (grows_keeps _topic (fun _ _ => eq_refl) (fun _ => True)
                        root (tree r)) with (h := PubSub.parts_of T) (n := n)
    as (n' & Hn' & E); auto.
  - intros f Hs _ m. apply Hs.
  - now apply grower_exec.
  - exists n'. repeat split; auto. now apply get_existing.
Qed.

Lemma nodes_are_never_removed_witness :
  node_at Cases.two_topics (PubSub.parts_of "a/b")
  = Some (Topic_init "a/b")
  /\ exists n',
      node_at (tree (exec "" (Create "a/c" None VNone VNone VNone)
                          Cases.two_topics))
              (PubSub.parts_of "a/b") = Some n'
      /\ _topic n' = _topic (Topic_init "a/b")
      /\ PubSub.get "a/b" (tree (exec "" (Create "a/c" None VNone VNone VNone)
                                      Cases.two_topics))
         = mkRun (Ok (_value n'))
                 (tree (exec "" (Create "a/c" None VNone VNone VNone)
                             Cases.two_topics)) [].
Proof.
  split; [reflexivity|].
  exact (nodes_are_never_removed "" (Create "a/c" None VNone VNone VNone)
                                 Cases.two_topics "a/b" (Topic_init "a/b")
                                 eq_refl).
Defined.

(** ** The fields a publish leaves alone *)

(** X2: a publish keeps the subscriber list of every node; on a topic
    without the '$' suffix it keeps the metadata of every node, and on a
    topic with the '$' suffix it keeps the retained value of every node:
    values and metadata never clear each other. *)
Theorem publish_keeps_other_fields
        (prefix topic : string) (value retain src_cbk : pyval)
        (root : Topic) (h : handle) (n : Topic) :
  node_at root h = Some n ->
  let r := PubSub.publish prefix topic value retain src_cbk root in
  exists n',
    node_at (tree r) h = Some n'
    /\ _subscribers n' = _subscribers n
    /\ (PyStr.last_is topic "$" = false -> meta n' = meta n)
    /\ (PyStr.last_is topic "$" = true -> _value n' = _value n).
Proof.
  intros Hn r. subst r. destruct (PyStr.last_is topic "$") eqn:L.
  - destruct (grows_keeps (fun t => (_subscribers t, _value t))
                          (fun _ _ => eq_refl)
                          (fun f => exists v, f = set_meta v)
                          root (tree (PubSub.publish prefix topic value retain
                                                     src_cbk root)))
      with (h := h) (n := n) as (n' & Hn' & E); auto.
    + intros f _ [v ->] m. reflexivity.
    + apply grower_publish; [congruence | intros _ v; now exists v].
    + injection E as E1 E2. exists n'. repeat split; auto. discriminate.
  - destruct (grows_keeps (fun t => (_subscribers t, meta t))
                          (fun _ _ => eq_refl)
                          (fun f => exists v, f = set_value v)
                          root (tree (PubSub.publish prefix topic value retain
                                                     src_cbk root)))
      with (h := h) (n := n) as (n' & Hn' & E); auto.
    + intros f _ [v ->] m. reflexivity.
    + apply grower_publish; [intros _ v; now exists v | congruence].
    + injection E as E1 E2. exists n'. repeat split; auto. discriminate.
Qed.

Lemma publish_keeps_other_fields_witness :
  node_at Scenario.with_meta ["foo"]
  = Some (set_meta Scenario.u32 (Topic_init "foo"))
  /\ exists n',
      node_at (tree (PubSub.publish "" "foo" (VInt 3) (VBool true) VNone
                                    Scenario.with_meta)) ["foo"] = Some n'
      /\ _subscribers n'
         = _subscribers (set_meta Scenario.u32 (Topic_init "foo"))
      /\ (PyStr.last_is "foo" "$" = false ->
          meta n' = meta (set_meta Scenario.u32 (Topic_init "foo")))
      /\ (PyStr.last_is "foo" "$" = true ->
          _value n' = _value (set_meta Scenario.u32 (Topic_init "foo"))).
Proof.
  split; [reflexivity|].
  exact (publish_keeps_other_fields "" "foo" (VInt 3) (VBool true) VNone
                                    Scenario.with_meta ["foo"] _ eq_refl).
Defined.

(** ** The shape of a reachable tree *)

Section UniqueParts.
Implicit Types (t : Topic) (h parts sofar : list string).

Lemma unique_parts_all (l : list (string * Topic)) :
  (fix all (l : list (string * Topic)) : Prop :=
     match l with
     | [] => True
     | kc :: l' => unique_parts (snd kc) /\ all l'
     end) l
  <-> forall part child, In (part, child) l -> unique_parts child.
Proof.
  induction l as [|[k c] l IH]; simpl.
  - split; [intros _ ? ? [] | auto].
  - rewrite IH. split.
    + intros [Hc Hl] part child [[= <- <-]|Hin]; eauto.
    + intros H. split; [now apply (H k); left|].
      intros part child Hin. apply (H part). now right.
Qed.

Lemma unique_parts_inv t :
  unique_parts t
  <-> NoDup (map fst (children t))
      /\ forall part child,
          In (part, child) (children t) -> unique_parts child.
Proof.
  destruct t as [name v m ch subs]. cbn [unique_parts children].
  now rewrite unique_parts_all.
Qed.

Lemma unique_parts_set_child t part child :
  unique_parts t -> unique_parts child ->
  unique_parts (set_children (dict_set (children t) part child) t).
Proof.
  intros U Uc. apply unique_parts_inv in U as [Hk Hc].
  apply unique_parts_inv. cbn [set_children children]. split.
  - rewrite dict_set_keys.
    destruct (dict_get (children t) part) eqn:G; [exact Hk|].
    apply NoDup_app; [exact Hk | repeat constructor; tauto|].
    intros k Hin [<-|[]]. now apply (dict_get_None_keys _ _ G).
  - intros p c Hin. apply dict_set_In in Hin as [[= -> ->]|Hin]; eauto.
Qed.

Lemma unique_parts_init name : unique_parts (Topic_init name).
Proof. apply unique_parts_inv. split; [constructor | intros ? ? []]. Qed.

Lemma unique_parts_find_walk create parts :
  forall t sofar t',
    unique_parts t ->
    PubSub.find_walk create t sofar parts = Some t' -> unique_parts t'.
Proof.
  induction parts as [|part rest IH]; intros t sofar t' U; simpl.
  - now intros [= <-].
  - destruct (dict_get (children t) part) as [child|] eqn:G.
    + destruct (PubSub.find_walk create child _ rest) as [c'|] eqn:E;
        [|discriminate].
      intros [= <-]. apply unique_parts_set_child; [exact U|].
      apply (IH _ _ _ (proj2 (proj1 (unique_parts_inv t) U) _ _
                             (dict_get_In _ _ _ G)) E).
    + destruct create; [|discriminate].
      destruct (PubSub.find_walk true _ _ rest) as [c'|] eqn:E;
        [|discriminate].
      intros [= <-]. apply unique_parts_set_child; [exact U|].
      apply (IH _ _ _ (unique_parts_init _) E).
Qed.

Lemma unique_parts_update_at f h :
  keeps_shape f ->
  forall t, unique_parts t -> unique_parts (update_at f h t).
Proof.
  intros Hf. induction h as [|part rest IH]; intros t U; simpl.
  - destruct (Hf t) as [_ Hc]. apply unique_parts_inv in U.
    apply unique_parts_inv. now rewrite Hc.
  - destruct (dict_get (children t) part) as [child|] eqn:G; [|exact U].
    apply unique_parts_set_child; [exact U|]. apply IH.
    apply (proj2 (proj1 (unique_parts_inv t) U) _ _ (dict_get_In _ _ _ G)).
Qed.

Lemma unique_parts_grows F root root' :
  grows F root root' -> unique_parts root -> unique_parts root'.
Proof.
  induction 1 as [|root root1 root2 S _ IH]; [auto|]. intros U. apply IH.
  destruct S as [create parts root root' E|f h root Hs _].
  - eapply unique_parts_find_walk; eauto.
  - now apply unique_parts_update_at.
Qed.

Lemma unique_parts_node_at h :
  forall t n, unique_parts t -> node_at t h = Some n -> unique_parts n.
Proof.
  induction h as [|part rest IH]; intros t n U; simpl.
  - now intros [= <-].
  - destruct (dict_get (children t) part) as [child|] eqn:G; [|discriminate].
    apply IH.
    apply (proj2 (proj1 (unique_parts_inv t) U) _ _ (dict_get_In _ _ _ G)).
Qed.

Lemma reachable_unique_parts prefix root :
  reachable prefix root -> unique_parts root.
Proof.
  induction 1 as [|root o _ IH]; [apply unique_parts_init|].
  apply (unique_parts_grows (fun _ => True) root); [|exact IH].
  now apply grower_exec.
Qed.

End UniqueParts.

(** X3: in every tree an engine can be in, a node that the parts [h]
    lead to carries the topic string ['/'.join(h)], and no node has two
    children under the same part (the children of a node form a dict). *)
Theorem reachable_tree_shape
        (prefix : string) (root : Topic) (h : handle) (n : Topic) :
  reachable prefix root ->
  node_at root h = Some n ->
  _topic n = PyStr.join h /\ NoDup (map fst (children n)).
Proof.
  intros R Hn. split.
  - pose proof (well_named_node_at _ _ _ _ (reachable_well_named _ _ R) Hn)
      as W.
    now apply well_named_inv in W as [W _].
  - pose proof (unique_parts_node_at _ _ _ (reachable_unique_parts _ _ R) Hn)
      as U.
    now apply unique_parts_inv in U as [U _].
Qed.

Lemma reachable_tree_shape_witness :
  reachable "a" Scenario.engine_a
  /\ node_at Scenario.engine_a ["x"]
     = Some (set_value (VInt 1) (Topic_init "x"))
  /\ _topic (set_value (VInt 1) (Topic_init "x")) = PyStr.join ["x"]
  /\ NoDup (map fst (children (set_value (VInt 1) (Topic_init "x")))).
Proof.
  assert (R : reachable "a" Scenario.engine_a) by (repeat constructor).
  split; [exact R|]. split; [reflexivity|].
  exact (reachable_tree_shape "a" Scenario.engine_a ["x"] _ R eq_refl).
Defined.

(** ** Topic strings *)

Section StripFacts.

Lemma append_nil_r (s : string) : (s ++ "")%string = s.
Proof. induction s; simpl; congruence. Qed.

Lemma append_assoc (a b c : string) :
  ((a ++ b) ++ c)%string = (a ++ b ++ c)%string.
Proof. induction a; simpl; congruence. Qed.

Lemma append_length (a b : string) :
  String.length (a ++ b) = String.length a + String.length b.
Proof. induction a; simpl; congruence. Qed.

Lemma last_char_snoc (s : string) (c : ascii) :
  PyStr.last_char (s ++ String c "") = Some c.
Proof.
  induction s as [|a s IH]; [reflexivity|].
  cbn [append]. rewrite last_char_cons_nonempty; [exact IH|].
  now destruct s.
Qed.

Lemma drop_last_snoc (s : string) (c : ascii) :
  PyStr.drop_last (s ++ String c "") = s.
Proof.
  induction s as [|a s IH]; [reflexivity|].
  cbn [append]. destruct s as [|b s]; [reflexivity|].
  cbn [append] in *. cbn [PyStr.drop_last]. cbn [PyStr.drop_last] in IH.
  now rewrite IH.
Qed.

(** A string that is not empty is its [s[:-1]] followed by [s[-1]]. *)
Lemma snoc_last (s : string) (c : ascii) :
  PyStr.last_char s = Some c ->
  s = (PyStr.drop_last s ++ String c "")%string.
Proof.
  induction s as [|a s IH]; [discriminate|].
  destruct s as [|b s]; [now intros [= ->]|].
  intros H. cbn [PyStr.drop_last append]. f_equal. now apply IH.
Qed.

Lemma rstrip_snoc (s : string) (c : ascii) :
  rstrip (s ++ String c "")
  = if PyStr.in_strip_set c then rstrip s else (s ++ String c "")%string.
Proof.
  induction s as [|a s IH]; simpl.
  - now destruct (PyStr.in_strip_set c).
  - rewrite IH. destruct (PyStr.in_strip_set c); [reflexivity|].
    now destruct s.
Qed.

(** The loop of [_topic_find] computes [rstrip]. *)
Lemma strip_loop_rstrip (fuel : nat) :
  forall s, String.length s <= fuel -> PyStr.strip_loop fuel s = rstrip s.
Proof.
  induction fuel as [|fuel IH]; intros s Hlen.
  - destruct s; [reflexivity | simpl in Hlen; lia].
  - cbn [PyStr.strip_loop].
    destruct (PyStr.last_char s) as [c|] eqn:L.
    + pose proof (snoc_last _ _ L) as E.
      rewrite E at 3. rewrite rstrip_snoc.
      destruct (PyStr.in_strip_set c); [|now rewrite <- E].
      apply IH. rewrite E in Hlen. rewrite append_length in Hlen.
      simpl in Hlen. lia.
    + destruct s as [|a s]; [reflexivity|]. exfalso.
      clear - L. revert a L. induction s as [|b s IH]; intros a L;
        [discriminate|]. apply (IH b). exact L.
Qed.

Lemma strip_rstrip (s : string) : PyStr.strip s = rstrip s.
Proof. apply strip_loop_rstrip. constructor. Qed.

Lemma rstrip_reserved (suf : string) :
  all_reserved suf = true ->
  forall s, rstrip (s ++ suf) = rstrip s.
Proof.
  induction suf as [|c suf IH]; intros H s.
  - now rewrite append_nil_r.
  - cbn [all_reserved] in H. apply andb_true_iff in H as [Hc Hs].
    change (String c suf) with (String c "" ++ suf)%string.
    rewrite <- append_assoc, (IH Hs), rstrip_snoc. now rewrite Hc.
Qed.

(** The stripped topic does not end with a reserved character. *)
Lemma rstrip_last (s : string) (c : ascii) :
  PyStr.last_char (rstrip s) = Some c -> PyStr.in_strip_set c = false.
Proof.
  revert c. induction s as [|a s IH]; intros c; simpl; [discriminate|].
  destruct (rstrip s) as [|b r] eqn:E.
  - destruct (PyStr.in_strip_set a) eqn:Ha; [discriminate|].
    now intros [= <-].
  - intros H. apply IH. exact H.
Qed.

Lemma rstrip_fixed (s : string) :
  (forall c, PyStr.last_char s = Some c -> PyStr.in_strip_set c = false) ->
  rstrip s = s.
Proof.
  destruct (PyStr.last_char s) as [c|] eqn:L.
  - intros H. rewrite (snoc_last _ _ L) at 1. rewrite rstrip_snoc.
    rewrite (H c eq_refl). now rewrite <- (snoc_last _ _ L).
  - intros _. destruct s as [|a s]; [reflexivity|]. exfalso.
    clear - L. revert a L. induction s as [|b s IH]; intros a L;
      [discriminate|]. apply (IH b). exact L.
Qed.

(** [s.split('/')] is never empty, and joining it gives [s] back. *)
Lemma join_split_from (s : string) :
  forall cur,
    PyStr.join (PyStr.split_from cur s) = (cur ++ s)%string
    /\ PyStr.split_from cur s <> [].
Proof.
  induction s as [|c s IH]; intros cur; cbn [PyStr.split_from].
  - split; [apply eq_sym, append_nil_r | discriminate].
  - destruct (Ascii.eqb_spec c "/"%char) as [->|Hc].
    + destruct (IH "") as [E Hne]. split; [|discriminate].
      destruct (PyStr.split_from "" s) as [|p l] eqn:S; [congruence|].
      cbn [PyStr.join]. cbn [PyStr.join] in E. now rewrite E.
    + destruct (IH (cur ++ String c "")%string) as [E Hne].
      split; [|exact Hne]. rewrite E. now rewrite append_assoc.
Qed.

Lemma join_split (s : string) : PyStr.join (PyStr.split s) = s.
Proof. apply (join_split_from s ""). Qed.

(** The topic string of the node a topic resolves to is the stripped
    topic. *)
Lemma join_parts_of (topic : string) :
  PyStr.join (PubSub.parts_of topic) = PyStr.strip topic.
Proof.
  unfold PubSub.parts_of.
  destruct (PyStr.strip topic) as [|c s] eqn:E; [reflexivity|].
  cbn [String.length Nat.eqb]. apply join_split.
Qed.

End StripFacts.

(** X4: path resolution ignores trailing '/', '$' and '?' characters: a
    topic followed by any run of them resolves as the topic itself, with
    or without creation, so [get] cannot tell them apart. *)
Theorem trailing_reserved_ignored
        (T suffix : string) (create : bool) (root : Topic) :
  all_reserved suffix = true ->
  PubSub._topic_find (T ++ suffix) create root
  = PubSub._topic_find T create root
  /\ PubSub.get (T ++ suffix) root = PubSub.get T root.
Proof.
  intros H.
  assert (E : PubSub.parts_of (T ++ suffix) = PubSub.parts_of T).
  { unfold PubSub.parts_of. now rewrite !strip_rstrip, (rstrip_reserved _ H). }
  unfold PubSub.get, bind, PubSub._topic_find. now rewrite E.
Qed.

Lemma trailing_reserved_ignored_witness :
  all_reserved "/$?" = true
  /\ PubSub._topic_find ("a" ++ "/$?") true Scenario.retained_7
     = PubSub._topic_find "a" true Scenario.retained_7
  /\ PubSub.get ("a" ++ "/$?") Scenario.retained_7
     = PubSub.get "a" Scenario.retained_7.
Proof.
  split; [reflexivity|].
  exact (trailing_reserved_ignored "a" "/$?" true Scenario.retained_7 eq_refl).
Defined.

(** ** What a value publish delivers *)

Section Delivery.

(** In a well named tree the node a topic resolves to, created or not,
    carries the stripped topic. *)
Lemma named_after_find topic root root1 node :
  well_named [] root = true ->
  PubSub._topic_find topic true root
  = mkRun (Ok (Some (PubSub.parts_of topic))) root1 [] ->
  node_at root1 (PubSub.parts_of topic) = Some node ->
  _topic node = PyStr.strip topic.
Proof.
  intros W E Hn. pose proof (keeps_topic_find topic true root W) as W1.
  rewrite E in W1. cbn [tree] in W1.
  pose proof (well_named_node_at _ _ _ _ W1 Hn) as Wn.
  apply well_named_inv in Wn as [Wn _]. rewrite Wn. apply join_parts_of.
Qed.

Lemma path_nodes_head (t : Topic) (h : handle) :
  exists below, path_nodes t h = t :: below.
Proof. destruct h; simpl; eauto. Qed.

End Delivery.

(** X5: the topic a subscriber is called with is the topic of the node,
    not the string that was published: on every tree the engine can be in,
    every call made by a publish on a value topic T carries
    [(T without its trailing '/', value, retain)] and is made on the
    tree the publish leaves. *)
Theorem publish_delivers_stripped_topic
        (prefix T : string) (V retain src_cbk : pyval) (root : Topic)
        (c : call) :
  reachable prefix root ->
  value_topic T ->
  In c (calls (PubSub.publish prefix T V retain src_cbk root)) ->
  c_args c = [VStr (PyStr.strip T); V; retain]
  /\ c_seen c = tree (PubSub.publish prefix T V retain src_cbk root).
Proof.
  intros R HT. pose proof (reachable_well_named _ _ R) as W.
  destruct (topic_find_create T root) as (root1 & node & E & Hn).
  rewrite (publish_value_run _ _ _ _ _ _ _ _ HT E Hn).
  destruct (truthy retain && py_eq (_value node) V); cbn [calls tree];
    [intros []|].
  intros Hc. apply notify_In in Hc as (n & f & _ & _ & _ & Ha & Hs).
  now rewrite Ha, Hs, (named_after_find _ _ _ _ W E Hn).
Qed.

Lemma publish_delivers_stripped_topic_witness :
  reachable "" Cases.watched
  /\ value_topic "a/b/"
  /\ In Cases.watched_call (calls Cases.watched_publish)
  /\ c_args Cases.watched_call = [VStr (PyStr.strip "a/b/"); VInt 2; VNone]
  /\ c_seen Cases.watched_call = tree Cases.watched_publish.
Proof.
  assert (R : reachable "" Cases.watched) by (repeat constructor).
  assert (HT : value_topic "a/b/")
    by (split; [discriminate | split; reflexivity]).
  assert (Hc : In Cases.watched_call (calls Cases.watched_publish))
    by (left; reflexivity).
  split; [exact R|]. split; [exact HT|]. split; [exact Hc|].
  exact (publish_delivers_stripped_topic "" "a/b/" (VInt 2) VNone VNone
                                         Cases.watched _ R HT Hc).
Defined.

(** X6: a subscriber registered on the node of a value topic or on any of
    its ancestors, the root included, is called by every publish on the
    topic that is not de-duplicated, unless it is the excluded source. *)
Theorem ancestor_subscriber_is_called
        (prefix T : string) (V retain src_cbk cbk forward : pyval)
        (root : Topic) (above below : list string) (n : Topic) :
  value_topic T ->
  PubSub.parts_of T = above ++ below ->
  node_at root above = Some n ->
  In (cbk, forward) (_subscribers n) ->
  py_eq cbk src_cbk = false ->
  (forall old,
      out (PubSub.get T (tree (PubSub._topic_find T true root))) = Ok old ->
      truthy retain && py_eq old V = false) ->
  exists name,
    In (mkCall cbk [VStr name; V; retain]
               (tree (PubSub.publish prefix T V retain src_cbk root)))
       (calls (PubSub.publish prefix T V retain src_cbk root)).
Proof.
  intros HT Hparts Hn Hin Hsrc Hnew.
  destruct (topic_find_create T root) as (root1 & node & E & Hn1).
  rewrite E in Hnew. cbn [tree] in Hnew.
  rewrite (get_existing _ _ _ Hn1) in Hnew. specialize (Hnew _ eq_refl).
  rewrite (publish_value_run _ _ _ _ _ _ _ _ HT E Hn1), Hnew.
  cbn [calls tree]. exists (_topic node).
  set (root2 := update_at _ _ root1).
  (* the node of [above] keeps its subscribers *)
  assert (K1 : exists n1, node_at root1 above = Some n1
                          /\ _subscribers n1 = _subscribers n).
  { unfold PubSub._topic_find in E.
    destruct (PubSub.find_walk true root [] (PubSub.parts_of T)) as [r1|] eqn:W;
      [|discriminate].
    injection E as <-.
    apply (find_walk_keeps _subscribers (fun _ _ => eq_refl) _ _ _ _ _ _ _ W Hn). }
  destruct K1 as (n1 & Hn1' & S1).
  destruct (update_at_keeps _subscribers (fun _ _ => eq_refl)
              (set_value (if truthy retain then V else VNone))
              (PubSub.parts_of T) (keeps_shape_set_value _) _ _ _ Hn1')
    as (n2 & Hn2 & S2).
  fold root2 in Hn2. specialize (S2 (or_introl (fun _ => eq_refl))).
  apply notify_In. exists n2, forward. cbn [c_cbk c_args c_seen].
  repeat split; auto; [|congruence].
  unfold chain. rewrite <- in_rev, Hparts.
  destruct (path_nodes_split _ _ _ Hn2) as (ab & _ & ->).
  destruct (path_nodes_head n2 below) as [bl ->].
  apply in_or_app. right. now left.
Qed.

Lemma ancestor_subscriber_is_called_witness :
  value_topic "a/b/"
  /\ PubSub.parts_of "a/b/" = [] ++ ["a"; "b"]
  /\ node_at Cases.watched [] = Some Cases.watched
  /\ In (VFn 1, VNone) (_subscribers Cases.watched)
  /\ py_eq (VFn 1) VNone = false
  /\ (forall old,
         out (PubSub.get "a/b/" (tree (PubSub._topic_find "a/b/" true
                                                          Cases.watched)))
         = Ok old ->
         truthy VNone && py_eq old (VInt 2) = false)
  /\ exists name,
      In (mkCall (VFn 1) [VStr name; VInt 2; VNone]
                 (tree (PubSub.publish "" "a/b/" (VInt 2) VNone VNone
                                       Cases.watched)))
         (calls (PubSub.publish "" "a/b/" (VInt 2) VNone VNone Cases.watched)).
Proof.
  assert (HT : value_topic "a/b/")
    by (split; [discriminate | split; reflexivity]).
  assert (Hin : In (VFn 1, VNone) (_subscribers Cases.watched))
    by (left; reflexivity).
  assert (Hnew : forall old,
             out (PubSub.get "a/b/" (tree (PubSub._topic_find "a/b/" true
                                                              Cases.watched)))
             = Ok old ->
             truthy VNone && py_eq old (VInt 2) = false)
    by reflexivity.
  split; [exact HT|]. split; [reflexivity|]. split; [reflexivity|].
  split; [exact Hin|]. split; [reflexivity|]. split; [exact Hnew|].
  exact (ancestor_subscriber_is_called "" "a/b/" (VInt 2) VNone VNone (VFn 1)
                                       VNone Cases.watched [] ["a"; "b"] _
                                       HT eq_refl eq_refl Hin eq_refl Hnew).
Defined.

(** ** De-duplication *)



(** ** Unsubscribing *)

Section Unsubscribe.

(** The second loop of [unsubscribe] pops, last first, the indexes the
    first loop collected: what is left are the pairs of the other
    callbacks, in order. *)
Lemma pop_collected cbk (l : list (pyval * pyval)) :
  forall pre,
    fold_left (fun l idx => _Topic.pop idx l)
              (rev (_Topic.unsub_indexes cbk (length pre) l)) (pre ++ l)
    = pre ++ filter (fun e => negb (py_eq cbk (fst e))) l.
Proof.
  induction l as [|[c f] l IH]; intros pre; [reflexivity|].
  cbn [_Topic.unsub_indexes filter fst].
  specialize (IH (pre ++ [(c, f)])).
  rewrite length_app, Nat.add_1_r, <- !app_assoc in IH. cbn [app] in IH.
  destruct (py_eq cbk c); cbn [negb]; [|exact IH].
  cbn [rev]. rewrite fold_left_app. cbn [fold_left]. rewrite IH.
  unfold _Topic.pop.
  rewrite firstn_app, Nat.sub_diag, firstn_all. cbn [firstn].
  rewrite skipn_app, skipn_all2 by lia.
  replace (S (length pre) - length pre) with 1 by lia.
  cbn [skipn app]. now rewrite app_nil_r.
Qed.

Lemma unsubscribed_list cbk (l : list (pyval * pyval)) :
  fold_left (fun l idx => _Topic.pop idx l)
            (rev (_Topic.unsub_indexes cbk 0 l)) l
  = filter (fun e => negb (py_eq cbk (fst e))) l.
Proof. apply (pop_collected cbk l []). Qed.

Lemma update_at_twice f g h :
  keeps_shape f ->
  forall t, update_at g h (update_at f h t) = update_at (fun n => g (f n)) h t.
Proof.
  intros Hf. induction h as [|part rest IH]; intros t; [reflexivity|].
  cbn [update_at].
  destruct (dict_get (children t) part) as [child|] eqn:G;
    cbn [update_at]; [|now rewrite G].
  cbn [children set_children]. rewrite dict_get_set_same, IH.
  destruct t as [name v m ch subs]; cbn [children set_children] in *.
  unfold set_children. cbn. f_equal.
  clear - G. induction ch as [|[k c] ch IHc]; simpl in *; [discriminate|].
  destruct (String.eqb_spec k part) as [->|Hne]; simpl.
  - now rewrite String.eqb_refl.
  - apply String.eqb_neq in Hne. rewrite Hne. f_equal. now apply IHc.
Qed.

Lemma update_at_ext f g h :
  (forall n, f n = g n) ->
  forall t, update_at f h t = update_at g h t.
Proof.
  intros E. induction h as [|part rest IH]; intros t; simpl; [apply E|].
  destruct (dict_get (children t) part); [|reflexivity]. now rewrite IH.
Qed.

(** The run of [unsubscribe], from the tree path resolution leaves. *)
Lemma unsubscribe_run T cbk root root1 :
  PubSub._topic_find T true root
  = mkRun (Ok (Some (PubSub.parts_of T))) root1 [] ->
  PubSub.unsubscribe T cbk root
  = mkRun (Ok tt)
          (update_at
             (fun t => set_subscribers
                         (filter (fun e => negb (py_eq cbk (fst e)))
                                 (_subscribers t)) t)
             (PubSub.parts_of T) root1) [].
Proof.
  intros E. unfold PubSub.unsubscribe. rewrite (bind_run _ _ _ _ _ _ E).
  cbn [PubSub.on_node _Topic.unsubscribe write out tree calls app].
  f_equal. apply update_at_ext. intros n. now rewrite unsubscribed_list.
Qed.

End Unsubscribe.

(** X8: [unsubscribe] never raises and calls nobody; it creates the nodes
    of a topic that does not exist, and on the node of the topic it removes
    every pair of the callback and keeps the pairs of the other callbacks
    in their order. *)
Theorem unsubscribe_removes_all
        (T : string) (cbk : pyval) (root : Topic) :
  PubSub.unsubscribe T cbk root
  = mkRun (Ok tt)
          (update_at
             (fun t => set_subscribers
                         (filter (fun e => negb (py_eq cbk (fst e)))
                                 (_subscribers t)) t)
             (PubSub.parts_of T)
             (tree (PubSub._topic_find T true root))) []
  /\ exists node,
      node_at (tree (PubSub.unsubscribe T cbk root)) (PubSub.parts_of T)
      = Some node
      /\ forall e, In e (_subscribers node) -> py_eq cbk (fst e) = false.
Proof.
  destruct (topic_find_create T root) as (root1 & node & E & Hn).
  pose proof (unsubscribe_run T cbk root root1 E) as R.
  rewrite R, E. cbn [tree]. split; [reflexivity|].
  eexists. split; [apply (node_at_update_at _ _ _ _ Hn)|].
  cbn [_subscribers set_subscribers]. intros e He.
  apply filter_In in He as [_ He]. now apply negb_true_iff.
Qed.

(** X9: subscribing a callable that the node of the topic does not list
    and unsubscribing it again leaves the tree that resolving the topic
    leaves: the subscription is undone, the nodes it created stay. *)
Theorem subscribe_then_unsubscribe
        (T : string) (id : nat) (skip_retained forward : pyval)
        (root : Topic) :
  (forall node e,
      node_at (tree (PubSub._topic_find T true root)) (PubSub.parts_of T)
      = Some node ->
      In e (_subscribers node) -> py_eq (VFn id) (fst e) = false) ->
  tree (PubSub.unsubscribe T (VFn id)
          (tree (PubSub.subscribe T (VFn id) skip_retained forward root)))
  = tree (PubSub._topic_find T true root).
Proof.
  intros Hnew.
  destruct (topic_find_create T root) as (root1 & node & E & Hn).
  rewrite E in *. cbn [tree] in *.
  pose proof (fun e => Hnew node e Hn) as Hsubs. clear Hnew.
  rewrite (subscribe_tree _ _ _ _ _ _ E).
  set (add := fun t => set_subscribers (_subscribers t ++ [(VFn id, forward)]) t).
  pose proof (node_at_update_at add _ _ _ Hn) as Hn2.
  rewrite (unsubscribe_run T (VFn id) _ _
             (topic_find_existing _ true _ _ Hn2)). cbn [tree].
  rewrite (update_at_twice add) by apply keeps_shape_set_subscribers.
  apply (update_at_id _ _ _ _ Hn).
  destruct node as [name v m ch subs]. unfold add, set_subscribers. cbn.
  f_equal. rewrite filter_app. cbn [filter fst].
  rewrite (Nat.eqb_refl id). cbn [negb]. rewrite app_nil_r.
  cbn [_subscribers] in Hsubs. clear - Hsubs.
  change (fun e : pyval * pyval =>
            negb match fst e with
                 | VFn y => (id =? y)%nat
                 | _ => false
                 end)
    with (fun e : pyval * pyval => negb (py_eq (VFn id) (fst e))).
  induction subs as [|e l IH]; [reflexivity|]. cbn [filter].
  rewrite (Hsubs e (or_introl eq_refl)). cbn [negb]. f_equal.
  apply IH. intros e' He'. apply Hsubs. now right.
Qed.

Lemma subscribe_then_unsubscribe_witness :
  (forall node e,
      node_at (tree (PubSub._topic_find "a" true Scenario.retained_7))
              (PubSub.parts_of "a") = Some node ->
      In e (_subscribers node) -> py_eq (VFn 5) (fst e) = false)
  /\ tree (PubSub.unsubscribe "a" (VFn 5)
             (tree (PubSub.subscribe "a" (VFn 5) VNone VNone
                                     Scenario.retained_7)))
     = tree (PubSub._topic_find "a" true Scenario.retained_7).
Proof.
  assert (H : forall node e,
             node_at (tree (PubSub._topic_find "a" true Scenario.retained_7))
                     (PubSub.parts_of "a") = Some node ->
             In e (_subscribers node) -> py_eq (VFn 5) (fst e) = false)
    by (intros node e [= <-] [<-|[]]; reflexivity).
  split; [exact H|].
  exact (subscribe_then_unsubscribe "a" 5 VNone VNone Scenario.retained_7 H).
Defined.

Section AfterUnsubscribe.

(** A node on the way to a handle is the node of a prefix of it. *)
Lemma path_nodes_In h :
  forall t n,
    In n (path_nodes t h) ->
    exists above below, h = above ++ below /\ node_at t above = Some n.
Proof.
  induction h as [|part rest IH]; intros t n; simpl.
  - intros [<-|[]]. now exists [], [].
  - intros [<-|Hin]; [now exists [], (part :: rest)|].
    destruct (dict_get (children t) part) as [child|] eqn:G; [|destruct Hin].
    destruct (IH _ _ Hin) as (above & below & -> & Hn).
    exists (part :: above), below. simpl. now rewrite G.
Qed.

Lemma py_eq_fn_neq id (x : pyval) : py_eq (VFn id) x = false -> x <> VFn id.
Proof. intros E ->. simpl in E. now rewrite Nat.eqb_refl in E. Qed.

End AfterUnsubscribe.

(** X10: after [unsubscribe(T, cbk)] a publish on the value topic T never
    calls [cbk], provided no proper ancestor of T lists it: every
    registration on the node of T is gone, duplicates included. *)
Theorem unsubscribed_is_not_called
        (prefix T : string) (id : nat) (V retain src_cbk : pyval)
        (root : Topic) (c : call) :
  value_topic T ->
  (forall above below n e,
      PubSub.parts_of T = above ++ below -> below <> [] ->
      node_at (tree (PubSub._topic_find T true root)) above = Some n ->
      In e (_subscribers n) -> fst e <> VFn id) ->
  In c (calls (PubSub.publish prefix T V retain src_cbk
                              (tree (PubSub.unsubscribe T (VFn id) root)))) ->
  c_cbk c <> VFn id.
Proof.
  intros HT Hanc.
  destruct (topic_find_create T root) as (root1 & node & E & Hn).
  rewrite E in Hanc. cbn [tree] in Hanc.
  rewrite (unsubscribe_run T (VFn id) root root1 E). cbn [tree].
  set (filt := fun t => set_subscribers
                          (filter (fun e => negb (py_eq (VFn id) (fst e)))
                                  (_subscribers t)) t).
  assert (Sf : keeps_shape filt) by apply keeps_shape_set_subscribers.
  pose proof (node_at_update_at filt _ _ _ Hn) as HnU.
  set (U := update_at filt (PubSub.parts_of T) root1) in *.
  rewrite (publish_value_run _ _ _ _ _ _ _ _ HT
             (topic_find_existing _ true _ _ HnU) HnU).
  destruct (truthy retain && py_eq (_value (filt node)) V); cbn [calls];
    [intros []|].
  set (sv := set_value (if truthy retain then V else VNone)).
  pose proof (node_at_update_at sv _ _ _ HnU) as Hn2.
  set (root2 := update_at sv (PubSub.parts_of T) U) in *.
  intros Hc. apply notify_In in Hc as (n & f & Hin & Hs & _).
  unfold chain in Hin. rewrite <- in_rev in Hin.
  apply path_nodes_In in Hin as (above & below & Hparts & Hna).
  destruct below as [|b below].
  - rewrite app_nil_r in Hparts. subst above. rewrite Hn2 in Hna.
    injection Hna as <-. cbn [sv filt _subscribers set_value set_subscribers]
      in Hs.
    apply filter_In in Hs as [_ Hs]. apply negb_true_iff in Hs.
    now apply py_eq_fn_neq.
  - assert (Hne : above <> PubSub.parts_of T).
    { rewrite Hparts. intros H. apply (f_equal (@length _)) in H.
      rewrite length_app in H. simpl in H. lia. }
    rewrite Hparts in Hn. destruct (node_at_app _ _ _ _ Hn) as (n0 & Hn0 & _).
    destruct (update_at_keeps _subscribers (fun _ _ => eq_refl) filt
                (PubSub.parts_of T) Sf _ _ _ Hn0) as (n1 & Hn1 & S1).
    destruct (update_at_keeps _subscribers (fun _ _ => eq_refl) sv
                (PubSub.parts_of T) (keeps_shape_set_value _) _ _ _ Hn1)
      as (n2 & Hn2' & S2).
    unfold root2, U in Hna. rewrite Hna in Hn2'.
    injection Hn2' as <-.
    rewrite (S2 (or_intror Hne)), (S1 (or_intror Hne)) in Hs.
    apply (Hanc above (b :: below) n0 (c_cbk c, f)); auto. discriminate.
Qed.

Lemma unsubscribed_is_not_called_witness :
  value_topic "a"
  /\ (forall above below n e,
         PubSub.parts_of "a" = above ++ below -> below <> [] ->
         node_at (tree (PubSub._topic_find "a" true Scenario.subscribed_twice))
                 above = Some n ->
         In e (_subscribers n) -> fst e <> VFn 1)
  /\ (forall c,
         In c (calls (PubSub.publish "" "a" (VInt 2) VNone VNone
                        (tree (PubSub.unsubscribe "a" (VFn 1)
                                                  Scenario.subscribed_twice)))) ->
         c_cbk c <> VFn 1).
Proof.
  assert (HT : value_topic "a")
    by (split; [discriminate | split; reflexivity]).
  assert (H : forall above below n e,
             PubSub.parts_of "a" = above ++ below -> below <> [] ->
             node_at (tree (PubSub._topic_find "a" true
                                               Scenario.subscribed_twice))
                     above = Some n ->
             In e (_subscribers n) -> fst e <> VFn 1).
  { intros [|p above] below n e Hp Hb Hn He.
    - injection Hn as <-. destruct He.
    - destruct above; [destruct below; [congruence | discriminate Hp]
                      | discriminate Hp]. }
  split; [exact HT|]. split; [exact H|]. intros c.
  exact (unsubscribed_is_not_called "" "a" 1 (VInt 2) VNone VNone
                                    Scenario.subscribed_twice c HT H).
Defined.

(** ** The replay to a new subscriber *)

Section Replay.

Lemma py_eq_None_l (x : pyval) : py_eq VNone x = is_None x.
Proof. now destruct x. Qed.

(** What [_publish_new_subscriber] calls: the new subscriber only, with
    a topic and a retained value that is not [None]. *)
Lemma replay_In (node : Topic) :
  forall cbk seen c,
    In c (_Topic._publish_new_subscriber node cbk seen) ->
    c_cbk c = cbk /\ c_seen c = seen
    /\ exists name v, c_args c = [VStr name; v] /\ is_None v = false.
Proof.
  induction node as [name v m ch subs IH] using Topic_rect'.
  intros cbk seen c. cbn [_Topic._publish_new_subscriber children _value
                          _topic].
  intros H. apply in_app_or in H as [H|H].
  - apply in_flat_map in H as ([k child] & Hin & H).
    rewrite Forall_forall in IH. pose proof (IH _ Hin) as IHc.
    cbn [snd] in IHc. now apply IHc in H.
  - destruct (is_None v) eqn:N; [destruct H|]. destruct H as [<-|[]].
    cbn. repeat split. now exists name, v.
Qed.

(** It reaches every node below the node of the subscription. *)
Lemma replay_contains rest :
  forall t n cbk seen,
    node_at t rest = Some n -> is_None (_value n) = false ->
    In (mkCall cbk [VStr (_topic n); _value n] seen)
       (_Topic._publish_new_subscriber t cbk seen).
Proof.
  induction rest as [|part rest IH]; intros t n cbk seen.
  - intros [= <-] N. destruct t as [name v m ch subs].
    cbn [_Topic._publish_new_subscriber children _value _topic] in *.
    rewrite N. apply in_or_app. right. now left.
  - cbn [node_at].
    destruct (dict_get (children t) part) as [child|] eqn:G; [|discriminate].
    intros Hn N. destruct t as [name v m ch subs].
    cbn [_Topic._publish_new_subscriber children] in *.
    apply in_or_app. left. apply in_flat_map.
    exists (part, child). split; [now apply dict_get_In | now apply IH].
Qed.

(** The run of [subscribe] with a callable, from the tree path
    resolution leaves. *)
Lemma subscribe_run T id skip_retained forward root root1 node :
  PubSub._topic_find T true root
  = mkRun (Ok (Some (PubSub.parts_of T))) root1 [] ->
  node_at root1 (PubSub.parts_of T) = Some node ->
  let add := fun t => set_subscribers
                        (_subscribers t ++ [(VFn id, forward)]) t in
  let root2 := update_at add (PubSub.parts_of T) root1 in
  PubSub.subscribe T (VFn id) skip_retained forward root
  = mkRun (Ok tt) root2
          (if truthy skip_retained then []
           else _Topic._publish_new_subscriber (add node) (VFn id) root2).
Proof.
  intros E Hn add root2. unfold PubSub.subscribe.
  rewrite (bind_run _ _ _ _ _ _ E). cbn [out tree calls app PubSub.on_node].
  unfold _Topic.subscribe. cbn [callable negb].
  rewrite (bind_run _ _ _ (Ok (Some node)) root1 []);
    [|unfold read; now rewrite Hn].
  cbn [out tree calls app]. rewrite callable_not_in_items by reflexivity.
  cbn [negb]. rewrite (bind_run _ _ _ (Ok tt) _ [] eq_refl).
  cbn [out tree calls app]. fold add. fold root2.
  destruct (truthy skip_retained); cbn [negb]; [reflexivity|].
  cbn [invoke out tree calls].
  pose proof (node_at_update_at add _ _ _ Hn) as Hn2. fold root2 in Hn2.
  now rewrite Hn2.
Qed.

End Replay.

(** X11: a late subscriber catches up.  On a tree the engine can be in,
    after a retained publish of a value other than [None] on the value
    topic T, subscribing a callable to T or to an ancestor topic A calls
    it with [(T stripped, value)], unless [skip_retained] is set, in which
    case nobody is called.  The replay calls the new subscriber only, with
    two arguments, and never with the value [None]. *)
Theorem late_subscriber_catches_up
        (prefix T A : string) (below : list string)
        (V retain src_cbk skip_retained forward : pyval) (id : nat)
        (root : Topic) :
  reachable prefix root ->
  value_topic T ->
  truthy retain = true ->
  is_None V = false ->
  PubSub.parts_of T = PubSub.parts_of A ++ below ->
  let r1 := PubSub.publish prefix T V retain src_cbk root in
  let r := PubSub.subscribe A (VFn id) skip_retained forward (tree r1) in
  out r = Ok tt
  /\ (truthy skip_retained = true -> calls r = [])
  /\ (truthy skip_retained = false ->
      exists v,
        py_eq v V = true
        /\ In (mkCall (VFn id) [VStr (PyStr.strip T); v] (tree r)) (calls r))
  /\ (forall c,
         In c (calls r) ->
         c_cbk c = VFn id /\ c_seen c = tree r
         /\ exists name v, c_args c = [VStr name; v] /\ is_None v = false).
Proof.
  intros R HT Hr HV Hparts r1 r.
  (* the tree after the publish *)
  assert (W1 : well_named [] (tree r1) = true)
    by (apply keeps_publish; now apply (reachable_well_named prefix)).
  assert (N1 : exists n1,
             node_at (tree r1) (PubSub.parts_of T) = Some n1
             /\ py_eq (_value n1) V = true).
  { subst r1. destruct (topic_find_create T root) as (root1 & node & E & Hn).
    rewrite (publish_value_run _ _ _ _ _ _ _ _ HT E Hn), Hr. cbn [andb].
    destruct (py_eq (_value node) V) eqn:D; cbn [tree]; [eauto|].
    eexists. split; [apply (node_at_update_at _ _ _ _ Hn)|]. apply py_eq_refl. }
  destruct N1 as (n1 & Hn1 & Ev).
  assert (Nv : is_None (_value n1) = false).
  { destruct (_value n1); try reflexivity. rewrite py_eq_None_l in Ev.
    congruence. }
  assert (Name : _topic n1 = PyStr.strip T).
  { pose proof (well_named_node_at _ _ _ _ W1 Hn1) as Wn.
    apply well_named_inv in Wn as [Wn _]. rewrite Wn. apply join_parts_of. }
  (* the subscription *)
  rewrite Hparts in Hn1. destruct (node_at_app _ _ _ _ Hn1) as (nA & HnA & HnB).
  pose proof (subscribe_run A id skip_retained forward _ _ _
                (topic_find_existing _ true _ _ HnA) HnA) as Er.
  cbv zeta in Er. fold r in Er.
  set (add := fun t => set_subscribers
                         (_subscribers t ++ [(VFn id, forward)]) t) in *.
  rewrite Er. cbn [out tree calls].
  split; [reflexivity|]. split; [now intros ->|]. split.
  - intros ->. exists (_value n1). split; [exact Ev|]. rewrite <- Name.
    destruct below as [|b bl].
    + injection HnB as <-.
      apply (replay_contains [] (add nA) (add nA)); [reflexivity | exact Nv].
    + apply (replay_contains (b :: bl) (add nA) n1); [exact HnB | exact Nv].
  - intros c Hc. destruct (truthy skip_retained); [destruct Hc|].
    now apply replay_In in Hc.
Qed.

Lemma late_subscriber_catches_up_witness :
  reachable "" Cases.watched
  /\ value_topic "a/b" /\ truthy (VBool true) = true
  /\ is_None (VInt 2) = false
  /\ PubSub.parts_of "a/b" = PubSub.parts_of "a" ++ ["b"]
  /\ out Cases.late = Ok tt
  /\ (truthy VNone = true -> calls Cases.late = [])
  /\ (truthy VNone = false ->
      exists v,
        py_eq v (VInt 2) = true
        /\ In (mkCall (VFn 7) [VStr (PyStr.strip "a/b"); v] (tree Cases.late))
              (calls Cases.late))
  /\ (forall c,
         In c (calls Cases.late) ->
         c_cbk c = VFn 7 /\ c_seen c = tree Cases.late
         /\ exists name v, c_args c = [VStr name; v] /\ is_None v = false).
Proof.
  assert (R : reachable "" Cases.watched) by (repeat constructor).
  assert (HT : value_topic "a/b")
    by (split; [discriminate | split; reflexivity]).
  split; [exact R|]. split; [exact HT|]. split; [reflexivity|].
  split; [reflexivity|]. split; [reflexivity|].
  exact (late_subscriber_catches_up "" "a/b" "a" ["b"] (VInt 2) (VBool true)
                                    VNone VNone VNone 7 Cases.watched
                                    R HT eq_refl eq_refl eq_refl).
Defined.

(** ** create *)

Section Create.

(** The node after [_Topic.publish]: stored value, other fields kept. *)
Lemma Topic_publish_node h x retain src_cbk root n :
  node_at root h = Some n ->
  out (_Topic.publish h x retain src_cbk root) = Ok tt
  /\ exists n',
      node_at (tree (_Topic.publish h x retain src_cbk root)) h = Some n'
      /\ meta n' = meta n /\ _topic n' = _topic n
      /\ _value n'
         = if truthy retain
           then if py_eq (_value n) x then _value n else x
           else VNone.
Proof.
  intros Hn. unfold _Topic.publish. rewrite Hn.
  destruct (truthy retain); [destruct (py_eq (_value n) x)|];
    unfold bind, write, invoke, ret; cbn [out tree calls];
    (split; [reflexivity|]); try (now exists n);
    eexists; (split; [apply (node_at_update_at _ _ _ _ Hn)|]); now cbn.
Qed.

(** The node after [_Topic.subscribe] with a callable: fields kept. *)
Lemma Topic_subscribe_node h cbk skip_retained forward root n :
  callable cbk = true ->
  node_at root h = Some n ->
  out (_Topic.subscribe h cbk skip_retained forward root) = Ok tt
  /\ exists n',
      node_at (tree (_Topic.subscribe h cbk skip_retained forward root)) h
      = Some n'
      /\ meta n' = meta n /\ _topic n' = _topic n /\ _value n' = _value n.
Proof.
  intros Hc Hn. unfold _Topic.subscribe. rewrite Hc. cbn [negb].
  rewrite (bind_run _ _ _ (Ok (Some n)) root []);
    [|unfold read; now rewrite Hn].
  cbn [out tree calls app]. rewrite (callable_not_in_items _ _ Hc).
  cbn [negb]. rewrite (bind_run _ _ _ (Ok tt) _ [] eq_refl).
  cbn [out tree calls app].
  destruct (negb (truthy skip_retained)); cbn [out tree invoke ret];
    (split; [reflexivity|]);
    eexists; (split; [apply (node_at_update_at _ _ _ _ Hn)|]); now cbn.
Qed.

(** After [create] the topic resolves, whatever [create] did. *)
Lemma create_resolves T m subscriber_cbk skip_retained forward root :
  exists node,
    node_at (tree (PubSub.create T m subscriber_cbk skip_retained forward
                                 root))
            (PubSub.parts_of T) = Some node.
Proof.
  unfold PubSub.create.
  destruct (node_at root (PubSub.parts_of T)) as [old|] eqn:G.
  { rewrite (bind_run _ _ _ _ _ _ (topic_find_existing _ false _ _ G)).
    cbn. eauto. }
  rewrite (bind_run _ _ _ _ _ _ (topic_find_missing _ _ G)).
  destruct (topic_find_create T root) as (root1 & node & E & Hn).
  rewrite (bind_run _ _ _ _ _ _ E).
  cbn [out tree calls app PubSub.on_node].
  destruct (grows_keeps _topic (fun _ _ => eq_refl) (fun _ => True) root1 _
              (fun f Hs _ m => proj1 (Hs m))
              (grower_create_body (fun _ => True) (PubSub.parts_of T) m
                 subscriber_cbk skip_retained forward (fun _ => I) root1)
              _ _ Hn) as (n' & Hn' & _).
  eauto.
Qed.

End Create.

(** X12: [create] is not idempotent: whatever a first [create] on a topic
    did, returned or raised, a second [create] on that topic raises
    ValueError, leaves the tree as it is and calls nobody. *)
Theorem create_twice_fails
        (T : string) (m m' : option (list (string * pyval)))
        (cbk skip_retained forward cbk' skip_retained' forward' : pyval)
        (root : Topic) :
  PubSub.create T m' cbk' skip_retained' forward'
                (tree (PubSub.create T m cbk skip_retained forward root))
  = mkRun (Raise ValueError)
          (tree (PubSub.create T m cbk skip_retained forward root)) [].
Proof.
  destruct (create_resolves T m cbk skip_retained forward root) as [node Hn].
  unfold PubSub.create at 1.
  now rewrite (bind_run _ _ _ _ _ _ (topic_find_existing _ false _ _ Hn)).
Qed.

(** X13: [create] of a topic that does not exist, with a metadata dict
    that carries a default and a recognized retain spelling (or none), and
    with no callback or a callable one, returns; the node carries the
    metadata, and [get] returns the default when retain is spelled true
    and [None] when it is spelled false or missing: without retain the
    default is published and not stored. *)
Theorem create_publishes_default
        (T : string) (d : list (string * pyval)) (x : pyval) (b : bool)
        (cbk skip_retained forward : pyval) (root : Topic) :
  node_at root (PubSub.parts_of T) = None ->
  dict_get d "default" = Some x ->
  _as_bool (match dict_get d "retain" with
            | Some r => r
            | None => VInt 0
            end) = Ok b ->
  cbk = VNone \/ callable cbk = true ->
  let r := PubSub.create T (Some d) cbk skip_retained forward root in
  out r = Ok tt
  /\ out (PubSub.get T (tree r)) = Ok (if b then x else VNone)
  /\ exists node,
      node_at (tree r) (PubSub.parts_of T) = Some node
      /\ meta node = VDict d.
Proof.
  intros G Hd Hb Hcbk r. subst r. unfold PubSub.create.
  rewrite (bind_run _ _ _ _ _ _ (topic_find_missing _ _ G)).
  destruct (topic_find_create T root) as (root1 & node & E & Hn).
  assert (Fresh : _value node = VNone).
  { unfold PubSub._topic_find in E.
    destruct (PubSub.find_walk true root [] (PubSub.parts_of T)) as [r1|] eqn:W;
      [|discriminate].
    injection E as <-. rewrite (find_walk_created _ _ _ _ W G) in Hn.
    now injection Hn as <-. }
  rewrite (bind_run _ _ _ _ _ _ E). cbn [out tree calls app PubSub.on_node].
  rewrite (bind_run _ _ _ (Ok tt) _ [] eq_refl). cbn [out tree calls app].
  pose proof (node_at_update_at (set_meta (VDict d)) _ _ _ Hn) as Hn2.
  set (root2 := update_at (set_meta (VDict d)) (PubSub.parts_of T) root1) in *.
  unfold dict_has. rewrite Hd, Hb.
  destruct (Topic_publish_node _ x (VBool b) cbk _ _ Hn2)
    as (O3 & n3 & Hn3 & M3 & _ & V3).
  cbn [meta set_meta _value truthy] in M3, V3. rewrite Fresh in V3.
  assert (V3' : _value n3 = if b then x else VNone).
  { rewrite V3. destruct b; [|reflexivity]. rewrite py_eq_None_l.
    destruct (is_None x) eqn:N; [|reflexivity].
    now apply is_None_true in N. }
  set (p3 := _Topic.publish (PubSub.parts_of T) x (VBool b) cbk root2) in *.
  unfold bind. fold p3. rewrite O3. cbn [out tree calls].
  destruct Hcbk as [->|Hc].
  - cbn [is_None negb ret out tree calls].
    split; [reflexivity|]. rewrite (get_existing _ _ _ Hn3), V3'. cbn.
    split; [reflexivity|]. eauto.
  - assert (N : is_None cbk = false) by now destruct cbk.
    rewrite N. cbn [negb].
    destruct (Topic_subscribe_node _ cbk skip_retained forward _ _ Hc Hn3)
      as (O4 & n4 & Hn4 & M4 & _ & V4).
    split; [exact O4|]. rewrite (get_existing _ _ _ Hn4), V4, V3'. cbn.
    split; [reflexivity|]. exists n4. split; [exact Hn4 | congruence].
Qed.

Lemma create_publishes_default_witness :
  node_at Scenario.fresh (PubSub.parts_of "a/b") = None
  /\ dict_get [("default", VInt 3); ("retain", VStr "ON")] "default"
     = Some (VInt 3)
  /\ _as_bool (match dict_get [("default", VInt 3); ("retain", VStr "ON")]
                              "retain" with
               | Some r => r
               | None => VInt 0
               end) = Ok true
  /\ (VFn 4 = VNone \/ callable (VFn 4) = true)
  /\ out Cases.created = Ok tt
  /\ out (PubSub.get "a/b" (tree Cases.created)) = Ok (VInt 3)
  /\ exists node,
      node_at (tree Cases.created) (PubSub.parts_of "a/b") = Some node
      /\ meta node = VDict [("default", VInt 3); ("retain", VStr "ON")].
Proof.
  assert (H : VFn 4 = VNone \/ callable (VFn 4) = true)
    by (right; reflexivity).
  split; [reflexivity|]. split; [reflexivity|]. split; [reflexivity|].
  split; [exact H|].
  exact (create_publishes_default
           "a/b" [("default", VInt 3); ("retain", VStr "ON")] (VInt 3) true
           (VFn 4) VNone VNone Scenario.fresh eq_refl eq_refl eq_refl H).
Defined.

(** ** _as_bool *)

Section AsBool.

Lemma lower_char_idem (c : ascii) :
  PyStr.lower_char (PyStr.lower_char c) = PyStr.lower_char c.
Proof. destruct c as [[] [] [] [] [] [] [] []]; reflexivity. Qed.

Lemma lower_idem (s : string) : PyStr.lower (PyStr.lower s) = PyStr.lower s.
Proof.
  induction s as [|c s IH]; [reflexivity|]. cbn [PyStr.lower].
  now rewrite lower_char_idem, IH.
Qed.

End AsBool.

(** X14: [_as_bool] decides by exact match only.  Of the integers it
    accepts 0 and 1 and raises ValueError for every other one; [False] and
    [True] are themselves; a string is judged by its lower-cased form, so
    the spelling is case-insensitive, and a string that is none of the
    twelve spellings raises ValueError, as do [None], callables, tuples
    and dicts. *)
Theorem as_bool_accepts :
  (forall z,
      _as_bool (VInt z)
      = if (z =? 0)%Z then Ok false
        else if (z =? 1)%Z then Ok true else Raise ValueError)
  /\ (forall b, _as_bool (VBool b) = Ok b)
  /\ (forall s, _as_bool (VStr s) = _as_bool (VStr (PyStr.lower s)))
  /\ (forall s,
         _as_bool (VStr s)
         = if existsb (String.eqb (PyStr.lower s))
                      ["no"; "off"; "disable"; "disabled"; "false"; "inactive"]
           then Ok false
           else if existsb (String.eqb (PyStr.lower s))
                           ["yes"; "on"; "enable"; "enabled"; "true"; "active"]
                then Ok true
                else Raise ValueError)
  /\ _as_bool VNone = Raise ValueError
  /\ (forall id, _as_bool (VFn id) = Raise ValueError)
  /\ (forall l, _as_bool (VTuple l) = Raise ValueError)
  /\ (forall d, _as_bool (VDict d) = Raise ValueError).
Proof.
  repeat split; try reflexivity.
  - intros z. unfold _as_bool, py_in. cbn [existsb py_eq orb].
    rewrite !orb_false_r, (Z.eqb_sym 0 z), (Z.eqb_sym 1 z).
    now destruct (z =? 0)%Z, (z =? 1)%Z.
  - now intros [].
  - intros s. unfold _as_bool. now rewrite lower_idem.
  - intros s. unfold _as_bool, py_in. cbn [existsb py_eq orb].
    rewrite !orb_false_r.
    now rewrite !(String.eqb_sym _ (PyStr.lower s)).
Qed.
(** ** Who receives metadata *)

Section Entries.
Implicit Types (t root : Topic) (h parts : list string).

Lemma entries_of_self t e : In e (_subscribers t) -> In e (entries_of t).
Proof. intros H. destruct t; simpl in *. apply in_or_app. now left. Qed.

Lemma entries_of_child t part child e :
  dict_get (children t) part = Some child ->
  In e (entries_of child) -> In e (entries_of t).
Proof.
  intros G H. destruct t as [name v m ch subs]; simpl in *.
  apply in_or_app; right. apply in_flat_map.
  exists (part, child). split; [now apply dict_get_In | exact H].
Qed.

(** The subtree of a node on a path is part of the tree. *)
Lemma entries_of_path_subtree h :
  forall t node e,
    In node (path_nodes t h) -> In e (entries_of node) ->
    In e (entries_of t).
Proof.
  induction h as [|part rest IH]; intros t node e; simpl.
  - now intros [<-|[]].
  - intros [<-|Hn] He; [assumption|].
    destruct (dict_get (children t) part) as [child|] eqn:G; [|destruct Hn].
    eapply entries_of_child; eauto.
Qed.

Lemma entries_of_chain root h node e :
  In node (chain root h) -> In e (_subscribers node) ->
  In e (entries_of root).
Proof.
  unfold chain. rewrite <- in_rev. intros Hn He.
  eapply entries_of_path_subtree; eauto using entries_of_self.
Qed.

Lemma entries_of_set_child t part child child' :
  dict_get (children t) part = Some child ->
  entries_of child' = entries_of child ->
  entries_of (set_children (dict_set (children t) part child') t)
  = entries_of t.
Proof.
  intros G E. destruct t as [name v m ch subs]; simpl in *. f_equal.
  now apply (flat_map_dict_set_replace _ _ _ child).
Qed.

(** Path resolution registers nobody. *)
Lemma entries_of_find_walk create parts :
  forall t sofar t',
    PubSub.find_walk create t sofar parts = Some t' ->
    entries_of t' = entries_of t.
Proof.
  induction parts as [|part rest IH]; intros t sofar t'; simpl.
  - now intros [= <-].
  - destruct (dict_get (children t) part) as [child|] eqn:G.
    + destruct (PubSub.find_walk create child _ rest) as [c'|] eqn:E;
        [|discriminate].
      intros [= <-]. apply (entries_of_set_child _ _ child); eauto.
    + destruct create; [|discriminate].
      destruct (PubSub.find_walk true _ _ rest) as [c'|] eqn:E;
        [|discriminate].
      intros [= <-]. apply IH in E. rewrite (dict_set_missing _ _ _ G).
      destruct t as [name v m ch subs]; simpl in *.
      rewrite flat_map_app. simpl. rewrite E. simpl.
      now rewrite !app_nil_r.
Qed.

(** Neither does a mutation that keeps the subscribers and the children
    of the node. *)
Lemma entries_of_update_at f h :
  (forall n, _subscribers (f n) = _subscribers n
             /\ children (f n) = children n) ->
  forall t, entries_of (update_at f h t) = entries_of t.
Proof.
  intros Hf. induction h as [|part rest IH]; intros t; simpl.
  - destruct (Hf t) as [Hs Hc]. destruct t, (f _); simpl in *. now subst.
  - destruct (dict_get (children t) part) as [child|] eqn:G; [|reflexivity].
    apply (entries_of_set_child _ _ child); auto.
Qed.

End Entries.

Section ForwardsOnly.
Variable src_cbk : pyval.

Lemma forwards_only_same {A} (m : M A) :
  (forall root, tree (m root) = root /\ calls (m root) = []) ->
  forwards_only src_cbk m.
Proof.
  intros H root. destruct (H root) as [-> ->].
  split; [reflexivity | intros c []].
Qed.

Lemma forwards_only_bind {A B} (m : M A) (f : A -> M B) :
  forwards_only src_cbk m -> (forall a, forwards_only src_cbk (f a)) ->
  forwards_only src_cbk (bind m f).
Proof.
  intros Hm Hf root. unfold bind. destruct (Hm root) as [Ht Hc].
  destruct (out (m root)) as [a|e]; cbn [tree calls]; [|now split].
  destruct (Hf a (tree (m root))) as [Ht' Hc']. split; [congruence|].
  intros c Hin. apply in_app_or in Hin as [Hin|Hin]; [now apply Hc|].
  rewrite <- Ht. now apply Hc'.
Qed.

Lemma forwards_only_write f h :
  (forall n, _subscribers (f n) = _subscribers n
             /\ children (f n) = children n) ->
  forwards_only src_cbk (write (update_at f h)).
Proof.
  intros Hf root. split; [now apply entries_of_update_at|intros c []].
Qed.

Lemma forwards_only_topic_find topic create :
  forwards_only src_cbk (PubSub._topic_find topic create).
Proof.
  intros root. unfold PubSub._topic_find.
  destruct (PubSub.find_walk create root [] _) as [root'|] eqn:E;
    cbn [tree calls]; (split; [|intros c []]); [|reflexivity].
  now apply entries_of_find_walk in E.
Qed.

Lemma forwards_only_forward h topic value retain traverse_parent :
  forwards_only src_cbk
    (_Topic.forward h topic value retain src_cbk traverse_parent).
Proof.
  intros root. split; [reflexivity|]. cbn [calls _Topic.forward invoke].
  intros c Hc.
  apply forward_calls_In in Hc as (node & f & Hn & Hs & E & F & _).
  split; [exact E|]. exists f. split; [|exact F]. destruct traverse_parent.
  - eapply entries_of_chain; eauto.
  - destruct (node_at root h) as [self|] eqn:G; [|destruct Hn].
    destruct Hn as [<-|[]].
    apply (entries_of_path_subtree h root self);
      [|now apply entries_of_self].
    destruct (path_nodes_split _ _ _ G) as (above & -> & _).
    apply in_or_app. right. now left.
Qed.

(** The recursion of [_meta_send_all] calls forward-flagged subscribers
    of the subtree and of the parent chain, never [src_cbk]. *)
Lemma meta_walk_forward_In (topic : Topic) :
  forall parents seen c,
    In c (PubSub.meta_walk parents topic src_cbk seen) ->
    py_eq (c_cbk c) src_cbk = false
    /\ exists forward,
        truthy forward = true
        /\ (In (c_cbk c, forward) (entries_of topic)
            \/ exists p,
                In p parents /\ In (c_cbk c, forward) (_subscribers p)).
Proof.
  induction topic as [name v m ch subs IH] using Topic_rect'.
  intros parents seen c. cbn [PubSub.meta_walk meta _topic children].
  intros H. apply in_app_or in H as [H|H].
  - destruct (is_None m); cbn [negb] in H; [destruct H|].
    apply forward_calls_In in H as (node & f & Hn & Hs & E & F & _).
    split; [exact E|]. exists f. split; [exact F|].
    destruct Hn as [<-|Hn].
    + left. now apply entries_of_self.
    + right. eauto.
  - apply in_flat_map in H as ([k child] & Hin & H).
    rewrite Forall_forall in IH. pose proof (IH _ Hin) as IHc.
    cbn [snd] in IHc. apply IHc in H. clear IHc.
    destruct H as [E (f & F & [Hs | (p & [<-|Hp] & Hs)])];
      (split; [exact E|]); exists f; (split; [exact F|]).
    + left. simpl. apply in_or_app; right. apply in_flat_map.
      now exists (k, child).
    + left. now apply entries_of_self.
    + right. eauto.
Qed.

Lemma forwards_only_meta_send_all (t : option handle) :
  forwards_only src_cbk (PubSub._meta_send_all t src_cbk).
Proof.
  destruct t as [h|];
    [|apply forwards_only_same; intros root; now split].
  intros root. split; [reflexivity|].
  cbn [calls PubSub._meta_send_all invoke].
  intros c Hc.
  destruct (chain root h) as [|node parents] eqn:C; [destruct Hc|].
  apply meta_walk_forward_In in Hc as [E (f & F & H)]. split; [exact E|].
  exists f. split; [|exact F]. unfold chain in C.
  destruct H as [Hs | (p & Hp & Hs)].
  - apply (entries_of_path_subtree h root node); [|exact Hs].
    apply in_rev. rewrite C. now left.
  - apply (entries_of_path_subtree h root p);
      [|now apply entries_of_self].
    apply in_rev. rewrite C. now right.
Qed.

End ForwardsOnly.

(** X15: metadata traffic reaches forward subscribers only.  A publish on
    a topic that ends in '$' (a metadata write, a metadata read, a subtree
    or a global metadata request, for this engine or relayed for another
    one) registers nobody, and every call it makes goes to a callback that
    is registered in the tree with a true [forward] flag and is not the
    excluded source: a subscriber registered with the default
    [forward=None] never sees it. *)
Theorem metadata_reaches_forward_only
        (prefix topic : string) (value retain src_cbk : pyval)
        (root : Topic) (c : call) :
  PyStr.last_is topic "$" = true ->
  In c (calls (PubSub.publish prefix topic value retain src_cbk root)) ->
  entries_of (tree (PubSub.publish prefix topic value retain src_cbk root))
  = entries_of root
  /\ py_eq (c_cbk c) src_cbk = false
  /\ exists forward,
      In (c_cbk c, forward) (entries_of root) /\ truthy forward = true.
Proof.
  intros L Hc.
  assert (F : forwards_only src_cbk
                (PubSub.publish prefix topic value retain src_cbk)).
  { unfold PubSub.publish.
    destruct (String.length topic =? 0)%nat;
      [apply forwards_only_same; intros r; now split|].
    destruct (topic =? "$").
    { apply forwards_only_bind; [apply forwards_only_topic_find|]. intros t.
      apply forwards_only_bind; [apply forwards_only_meta_send_all|].
      intros _. apply forwards_only_forward. }
    destruct (PyStr.endswith topic "/$").
    { destruct (PyStr.startswith topic prefix).
      - apply forwards_only_bind; [apply forwards_only_topic_find|].
        intros t. apply forwards_only_meta_send_all.
      - apply forwards_only_bind;
          [apply forwards_only_same; intros r; now split|].
        intros t. apply forwards_only_forward. }
    rewrite L.
    apply forwards_only_bind; [apply forwards_only_topic_find|].
    intros [h|]; cbn [PubSub.on_node];
      [|apply forwards_only_same; intros r; now split].
    destruct (PyStr.startswith topic prefix);
      [|apply forwards_only_forward].
    destruct (is_None value).
    - apply forwards_only_bind;
        [apply forwards_only_same; intros r; now split|].
      intros tv. destruct (negb (is_None tv));
        [apply forwards_only_forward
        |apply forwards_only_same; intros r; now split].
    - apply forwards_only_bind; [now apply forwards_only_write|].
      intros _. apply forwards_only_forward. }
  destruct (F root) as [Ht Hcalls]. split; [exact Ht|]. now apply Hcalls.
Qed.

Lemma metadata_reaches_forward_only_witness :
  PyStr.last_is "a$" "$" = true
  /\ In Cases.listened_call (calls Cases.listened_meta)
  /\ entries_of (tree Cases.listened_meta) = entries_of Cases.listened
  /\ py_eq (c_cbk Cases.listened_call) VNone = false
  /\ exists forward,
      In (c_cbk Cases.listened_call, forward) (entries_of Cases.listened)
      /\ truthy forward = true.
Proof.
  assert (Hc : In Cases.listened_call (calls Cases.listened_meta))
    by (left; reflexivity).
  split; [reflexivity|]. split; [exact Hc|].
  exact (metadata_reaches_forward_only "" "a$" (VInt 1) VNone VNone
                                       Cases.listened _ eq_refl Hc).
Defined.
(** ** The deepest existing node *)

Section ExistingBase.
Implicit Types (t root : Topic) (parts : list string).

(** The loop of [_topic_find_existing_base] stops at the first part that
    is not a child. *)
Lemma base_walk_spec parts :
  forall t,
  exists rest,
    parts = PubSub.base_walk t parts ++ rest
    /\ (exists n, node_at t (PubSub.base_walk t parts) = Some n)
    /\ forall part rest',
        rest = part :: rest' ->
        node_at t (PubSub.base_walk t parts ++ [part]) = None.
Proof.
  induction parts as [|part parts IH]; intros t; cbn [PubSub.base_walk].
  - exists []. repeat split; [now exists t | discriminate].
  - destruct (dict_get (children t) part) as [child|] eqn:G.
    + destruct (IH child) as (rest & E & [n Hn] & Hmax).
      exists rest. cbn [app node_at]. rewrite G.
      repeat split; [now f_equal | now exists n | exact Hmax].
    + exists (part :: parts). cbn [app node_at].
      repeat split; [now exists t|]. intros p r [= <- <-]. now rewrite G.
Qed.

Lemma base_walk_existing parts :
  forall t n, node_at t parts = Some n -> PubSub.base_walk t parts = parts.
Proof.
  induction parts as [|part parts IH]; intros t n; simpl; [reflexivity|].
  destruct (dict_get (children t) part) as [child|]; [|discriminate].
  intros H. f_equal. eauto.
Qed.

End ExistingBase.

(** X16: [_topic_find_existing_base] returns the deepest node that exists
    on the path of the topic.  It changes nothing and calls nobody; the
    node it returns exists and its parts are a prefix of the parts of the
    topic; either they are all the parts, or the next part is not a child
    of the node.  It returns the node of the topic itself exactly when the
    topic resolves. *)
Theorem existing_base_is_deepest (topic : string) (root : Topic) :
  let r := PubSub._topic_find_existing_base topic root in
  tree r = root /\ calls r = []
  /\ exists base rest,
      out r = Ok base
      /\ PubSub.parts_of topic = base ++ rest
      /\ (exists n, node_at root base = Some n)
      /\ (forall part rest',
             rest = part :: rest' -> node_at root (base ++ [part]) = None)
      /\ (rest = [] <->
          exists n, node_at root (PubSub.parts_of topic) = Some n).
Proof.
  cbn. split; [reflexivity|]. split; [reflexivity|].
  destruct (base_walk_spec (PubSub.parts_of topic) root)
    as (rest & E & Hn & Hmax).
  exists (PubSub.base_walk root (PubSub.parts_of topic)), rest.
  split; [reflexivity|]. split; [exact E|]. split; [exact Hn|].
  split; [exact Hmax|]. split.
  - intros ->. rewrite app_nil_r in E. now rewrite <- E in Hn.
  - intros [n H]. rewrite (base_walk_existing _ _ _ H) in E.
    rewrite <- (app_nil_r (PubSub.parts_of topic)) in E at 1.
    now apply app_inv_head in E.
Qed.

(** ** meta *)

Section MetaFacts.

Lemma last_char_None (s : string) : PyStr.last_char s = None -> s = "".
Proof.
  induction s as [|a s IH]; [reflexivity|].
  destruct s as [|b s]; [discriminate|].
  rewrite last_char_cons_nonempty by discriminate.
  intros H. apply IH in H. discriminate.
Qed.

End MetaFacts.

(** X17: the '$' suffix is optional in [meta]: on a topic that is not
    empty and does not end in '$', [meta(T, m)] is
    [publish(T + '$', m)], and so is [meta(T + '$', m)]. *)
Theorem meta_suffix_optional
        (prefix T : string) (m : pyval) (root : Topic) :
  T <> "" ->
  PyStr.last_is T "$" = false ->
  PubSub.meta prefix T m root
  = PubSub.publish prefix (T ++ "$") m VNone VNone root
  /\ PubSub.meta prefix (T ++ "$") m root = PubSub.meta prefix T m root.
Proof.
  intros Hne Hl. unfold PubSub.meta. rewrite (last_char_snoc T "$").
  unfold PyStr.last_is in Hl.
  destruct (PyStr.last_char T) as [c|] eqn:L.
  - rewrite Hl. cbn. now split.
  - now apply last_char_None in L.
Qed.

Lemma meta_suffix_optional_witness :
  "a/b" <> "" /\ PyStr.last_is "a/b" "$" = false
  /\ PubSub.meta "" "a/b" Scenario.u32 Scenario.fresh
     = PubSub.publish "" ("a/b" ++ "$") Scenario.u32 VNone VNone
                      Scenario.fresh
  /\ PubSub.meta "" ("a/b" ++ "$") Scenario.u32 Scenario.fresh
     = PubSub.meta "" "a/b" Scenario.u32 Scenario.fresh.
Proof.
  assert (Hne : "a/b" <> "") by discriminate.
  split; [exact Hne|]. split; [reflexivity|].
  exact (meta_suffix_optional "" "a/b" Scenario.u32 Scenario.fresh
                              Hne eq_refl).
Defined.
(** ** Metadata requests *)

Section Requests.

(** Path resolution keeps every field of every node that exists, but the
    children. *)
Lemma topic_find_keeps_nodes topic create root h n :
  node_at root h = Some n ->
  exists n',
    node_at (tree (PubSub._topic_find topic create root)) h = Some n'
    /\ _topic n' = _topic n /\ _value n' = _value n
    /\ meta n' = meta n /\ _subscribers n' = _subscribers n.
Proof.
  intros Hn. unfold PubSub._topic_find.
  destruct (PubSub.find_walk create root [] _) as [root'|] eqn:E;
    cbn [tree]; [|now exists n].
  destruct (find_walk_keeps
              (fun t => (_topic t, _value t, meta t, _subscribers t))
              (fun _ _ => eq_refl) _ _ _ _ _ _ _ E Hn) as (n' & Hn' & P).
  exists n'. split; [exact Hn'|]. now injection P.
Qed.

(** The run of a subtree or global metadata request. *)
Lemma publish_request_run prefix topic value retain src_cbk root :
  topic = "$" \/ PyStr.endswith topic "/$" = true ->
  exists T create,
    tree (PubSub.publish prefix topic value retain src_cbk root)
    = tree (PubSub._topic_find T create root)
    /\ out (PubSub.publish prefix topic value retain src_cbk root) = Ok tt
    /\ PubSub.publish prefix topic value retain src_cbk root
       = PubSub.publish prefix topic VNone retain src_cbk root.
Proof.
  intros H. unfold PubSub.publish.
  assert (L : (String.length topic =? 0)%nat = false).
  { destruct H as [->|H]; [reflexivity|].
    apply (last_is_length topic "$").
    now apply (last_is_endswith topic "/$"). }
  rewrite L. destruct (topic =? "$") eqn:D.
  { exists prefix, true. unfold bind, PubSub._topic_find.
    destruct (PubSub.find_walk true root [] _); cbn; auto. }
  destruct H as [->|H]; [discriminate|]. rewrite H.
  destruct (PyStr.startswith topic prefix).
  - exists topic, true. unfold bind, PubSub._topic_find.
    destruct (PubSub.find_walk true root [] _); cbn; auto.
  - exists topic, false. cbn.
    destruct (topic_find_no_create topic root) as [-> _]. auto.
Qed.

End Requests.

(** X18: a metadata request stores nothing.  A publish on '$' or on a
    topic that ends in '/$' returns, ignores the value it is given (the
    run is the one of the value [None]), and keeps the topic string,
    retained value, metadata and subscriber list of every node: so
    [meta('a/', m)], which publishes on 'a/$', records no metadata. *)
Theorem metadata_request_stores_nothing
        (prefix topic : string) (value retain src_cbk : pyval)
        (root : Topic) (h : handle) (n : Topic) :
  topic = "$" \/ PyStr.endswith topic "/$" = true ->
  node_at root h = Some n ->
  let r := PubSub.publish prefix topic value retain src_cbk root in
  out r = Ok tt
  /\ r = PubSub.publish prefix topic VNone retain src_cbk root
  /\ exists n',
      node_at (tree r) h = Some n'
      /\ _topic n' = _topic n /\ _value n' = _value n
      /\ meta n' = meta n /\ _subscribers n' = _subscribers n.
Proof.
  intros H Hn r. subst r.
  destruct (publish_request_run prefix topic value retain src_cbk root H)
    as (T & create & Et & Eo & Ev).
  split; [exact Eo|]. split; [exact Ev|]. rewrite Et.
  now apply topic_find_keeps_nodes.
Qed.

Lemma metadata_request_stores_nothing_witness :
  ("a/$" = "$" \/ PyStr.endswith "a/$" "/$" = true)
  /\ node_at Scenario.with_meta [] = Some Scenario.with_meta
  /\ out (PubSub.publish "" "a/$" (VInt 5) VNone VNone Scenario.with_meta)
     = Ok tt
  /\ PubSub.publish "" "a/$" (VInt 5) VNone VNone Scenario.with_meta
     = PubSub.publish "" "a/$" VNone VNone VNone Scenario.with_meta
  /\ exists n',
      node_at (tree (PubSub.publish "" "a/$" (VInt 5) VNone VNone
                                    Scenario.with_meta)) [] = Some n'
      /\ _topic n' = _topic Scenario.with_meta
      /\ _value n' = _value Scenario.with_meta
      /\ meta n' = meta Scenario.with_meta
      /\ _subscribers n' = _subscribers Scenario.with_meta.
Proof.
  assert (H : "a/$" = "$" \/ PyStr.endswith "a/$" "/$" = true)
    by (right; reflexivity).
  split; [exact H|]. split; [reflexivity|].
  exact (metadata_request_stores_nothing "" "a/$" (VInt 5) VNone VNone
                                         Scenario.with_meta [] _ H eq_refl).
Defined.
(** ** The relay functions of the bridge *)

Section RelayTopics.



End RelayTopics.


(** ** The table of bit counts *)

Section CountTableFacts.

Lemma while_k_more (fuel : nat) :
  forall k count r fuel',
    CountTable.while_k fuel k count = Some r -> fuel <= fuel' ->
    CountTable.while_k fuel' k count = Some r.
Proof.
  induction fuel as [|fuel IH]; intros k count r fuel'; [discriminate|].
  intros H Hle. destruct fuel' as [|fuel']; [lia|].
  cbn [CountTable.while_k] in *.
  destruct (k =? 0)%Z; [exact H|]. apply (IH _ _ _ _ H). lia.
Qed.

(** A property checked on the 256 indexes holds on [range(256)]. *)
Lemma range_256 (P : Z -> bool) :
  forallb P (map Z.of_nat (seq 0 256)) = true ->
  forall i, (0 <= i < 256)%Z -> P i = true.
Proof.
  intros H i Hi. rewrite forallb_forall in H. apply H.
  apply in_map_iff. exists (Z.to_nat i). split; [lia|].
  apply in_seq. lia.
Qed.

End CountTableFacts.

(** X20: the table of [count_table_u8.py] holds the bit counts.  For every
    index of [range(256)] the inner loop ends within nine tests of [k];
    the entry is the number of one bits of the index, at most 8, so the
    uint8 entry never wraps; and the entry of the complemented index is 8
    minus the entry. *)
Theorem count_table_is_popcount (i : Z) (fuel : nat) :
  (0 <= i < 256)%Z ->
  9 <= fuel ->
  CountTable.entry fuel i = Some (CountTable.ones i)
  /\ (0 <= CountTable.ones i <= 8)%Z
  /\ CountTable.entry fuel (255 - i) = Some (8 - CountTable.ones i)%Z.
Proof.
  intros Hi Hf.
  pose (P := fun i : Z =>
               match CountTable.entry 9 i, CountTable.entry 9 (255 - i) with
               | Some c, Some c' =>
                   (c =? CountTable.ones i)%Z && (c <=? 8)%Z && (0 <=? c)%Z
                   && (c' =? 8 - c)%Z
               | _, _ => false
               end).
  assert (H : P i = true) by (apply range_256; [vm_compute; reflexivity | exact Hi]).
  unfold P in H.
  destruct (CountTable.entry 9 i) as [c|] eqn:E; [|discriminate].
  destruct (CountTable.entry 9 (255 - i)) as [c'|] eqn:E'; [|discriminate].
  apply andb_true_iff in H as [H H4]. apply andb_true_iff in H as [H H3].
  apply andb_true_iff in H as [H1 H2].
  apply Z.eqb_eq in H1, H4. apply Z.leb_le in H2, H3. subst c c'.
  unfold CountTable.entry in *.
  rewrite (while_k_more _ _ _ _ _ E Hf), (while_k_more _ _ _ _ _ E' Hf).
  repeat split; lia.
Qed.

Lemma count_table_is_popcount_witness :
  (0 <= 5 < 256)%Z /\ 9 <= 9
  /\ CountTable.entry 9 5 = Some (CountTable.ones 5)
  /\ (0 <= CountTable.ones 5 <= 8)%Z
  /\ CountTable.entry 9 (255 - 5) = Some (8 - CountTable.ones 5)%Z.
Proof.
  assert (Hi : (0 <= 5 < 256)%Z) by lia.
  assert (Hf : 9 <= 9) by lia.
  split; [exact Hi|]. split; [exact Hf|].
  exact (count_table_is_popcount 5 9 Hi Hf).
Defined.
